(** * textile-go: the thread synchronisation core

    A shallow embedding of the node of package [core] (handleRoomUpdate,
    handleHash, AddPhoto, republishLatestUpdates, the decrypting gateway,
    RegisterAlbum) and of [identityKeyFromSeed].

    Go strings and byte slices are both sequences of bytes and are modelled
    by [string]; a Go [error] is [None] for nil and [Some msg] otherwise; a
    Go map is a [gmap]; the SQL tables of the datastore are lists with the
    most recent row first. *)

From Stdlib Require Import Ascii.
From Stdlib Require String.
From stdpp Require Import base option list gmap strings pretty.

Set Default Proof Using "Type".

(** ** Values shared by all packages *)

Definition bytes : Type := string.

(** A Go [error]: nil or an error carrying its message. *)
Definition error : Type := option string.

(** A Go pair [(T, error)] in which exactly one side is meaningful. *)
Inductive result (A : Type) : Type :=
| Ok (a : A)
| Err (msg : string).
Arguments Ok {A} a.
Arguments Err {A} msg.

Definition PrivKey : Type := bytes.
Definition PubKey : Type := bytes.

(** A call of the logger: level, format and arguments, not rendered. *)
Inductive level : Type := DEBUG | INFO | ERROR.

Record logline : Type := Log { lvl : level; format : string; args : list string }.

(** ** strings.Split and strings.Join for a one-byte separator *)

Fixpoint Split (s : string) (sep : ascii) : list string :=
  match s with
  | EmptyString => [EmptyString]
  | String c s' =>
      if Ascii.eqb c sep then EmptyString :: Split s' sep
      else match Split s' sep with
           | x :: xs => String c x :: xs
           | [] => [String c EmptyString]
           end
  end.

Fixpoint Join (l : list string) (sep : string) : string :=
  match l with
  | [] => EmptyString
  | [x] => x
  | x :: xs => x +:+ sep +:+ Join xs sep
  end.

(** ** package photos *)

Module photos.

(** Modelled from the spec: the Metadata struct is declared in repo/photos,
    outside the sources at hand; the spec lists its fields as name, size,
    content type, extension and creation time. *)
Record Metadata : Type := {
  Name : string;
  Size : Z;
  ContentType : string;
  Ext : string;
  Created : string
}.

End photos.

(** ** package net *)

Module net.

(** The multipart request handed back by a local publish; the core reads
    its Boundary only, which is the root content id of the bundle. *)
Record MultipartRequest : Type := { Boundary : string }.

End net.

(** ** package repo: albums, photo sets and the datastore *)

Module trepo.

Record PhotoAlbum : Type := {
  Id : string;
  Key : PrivKey;
  Mnemonic : string;
  Name : string
}.

Record PhotoSet : Type := {
  Cid : string;
  LastCid : string;
  AlbumID : string;
  MetaData : photos.Metadata;
  Caption : string;
  IsLocal : bool
}.

(** The two WHERE clauses the core builds:
    "album='<id>'" and "album='<id>' and local=1". *)
Inductive query : Type :=
| album_is (id : string)
| album_is_and_local (id : string).

Definition matches (q : query) (p : PhotoSet) : bool :=
  match q with
  | album_is id => String.eqb (AlbumID p) id
  | album_is_and_local id => String.eqb (AlbumID p) id && IsLocal p
  end.

(** Modelled from the spec: the datastore (repo/db) is outside the sources
    at hand.  The spec gives its contract: records are indexed by content
    id; indexUpdate fails with AlreadyIndexed when the content id is
    present; pages are ordered by insertion recency; get(name) and
    get(id) return the album or nothing. *)
Record Datastore : Type := {
  albums : list PhotoAlbum;
  photos : list PhotoSet;           (* most recent first *)
  username : option string          (* Config().GetUsername() *)
}.

Definition GetAlbum (id : string) (ds : Datastore) : option PhotoAlbum :=
  find (fun a => String.eqb (Id a) id) (albums ds).

Definition GetAlbumByName (name : string) (ds : Datastore) : option PhotoAlbum :=
  find (fun a => String.eqb (Name a) name) (albums ds).

Definition GetAlbums (ds : Datastore) : list PhotoAlbum := albums ds.

Definition GetPhoto (cid : string) (ds : Datastore) : option PhotoSet :=
  find (fun p => String.eqb (Cid p) cid) (photos ds).

Fixpoint after_offset (offsetId : string) (l : list PhotoSet) : list PhotoSet :=
  match l with
  | [] => []
  | p :: l' => if String.eqb (Cid p) offsetId then l' else after_offset offsetId l'
  end.

Definition GetPhotos (offsetId : string) (limit : nat) (q : query)
    (ds : Datastore) : list PhotoSet :=
  let rows := filter (fun p => matches q p = true) (photos ds) in
  take limit (if String.eqb offsetId EmptyString then rows else after_offset offsetId rows).

Definition AlreadyIndexed : string := "AlreadyIndexed".

Definition PutPhoto (set : PhotoSet) (ds : Datastore) : error * Datastore :=
  match GetPhoto (Cid set) ds with
  | Some _ => (Some AlreadyIndexed, ds)
  | None =>
      (None, {| albums := albums ds; photos := set :: photos ds;
                username := username ds |})
  end.

Definition DuplicateName : string := "DuplicateName".

Definition PutAlbum (a : PhotoAlbum) (ds : Datastore) : error * Datastore :=
  match GetAlbumByName (Name a) ds with
  | Some b =>
      if String.eqb (Id b) (Id a) then (None, ds) else (Some DuplicateName, ds)
  | None =>
      (None, {| albums := albums ds ++ [a]; photos := photos ds;
                username := username ds |})
  end.

Definition NotFound : string := "NotFound".

Definition GetUsername (ds : Datastore) : result string :=
  match username ds with
  | Some un => Ok un
  | None => Err NotFound
  end.

End trepo.

(** ** Channels with a non-blocking sender

    [room] counts the sends that still find a buffer slot or a waiting
    receiver; a nil channel and a channel nobody listens on have no room. *)

Record chan (A : Type) : Type := { room : nat; delivered : list A }.
Arguments room {A} c.
Arguments delivered {A} c.

(** select { case c <- x: default: } *)
Definition send_or_drop {A : Type} (c : chan A) (x : A) : chan A :=
  match room c with
  | O => c
  | S n => {| room := n; delivered := delivered c ++ [x] |}
  end.

(** ** package core: the node

    The fields of the struct the methods at hand read or write, and what
    they reach through the IPFS node: whether it is online, its identity,
    its pin set and what went out on the bus.  handleRoomUpdate and
    handleHash are handed the API of the node and the listener channel of
    the room; here the API is among the collaborators and the channel is
    the field [datac]. *)

Record ThreadUpdate : Type := {
  tu_Cid : string;
  tu_Thread : string;
  tu_ThreadID : string
}.

Record HashRequest : Type := {
  Token : string;
  Protocol : string;
  Host : string
}.

Record TextileNode : Type := {
  Datastore : trepo.Datastore;
  HashPasses : gmap string string;
  GatewayProxy_Addr : string;
  Online : bool;                         (* t.Online() *)
  Identity : string;                     (* t.IpfsNode.Identity.Pretty() *)
  pinned : list (string * bool);         (* pins added, oldest first *)
  published : list (string * bytes);     (* Floodsub.Publish calls, oldest first *)
  datac : chan ThreadUpdate;             (* the listener channel of the room *)
  entropy : nat                          (* reads made of the random source *)
}.

Definition set_Datastore (ds : trepo.Datastore) (t : TextileNode) : TextileNode :=
  {| Datastore := ds; HashPasses := HashPasses t;
     GatewayProxy_Addr := GatewayProxy_Addr t; Online := Online t;
     Identity := Identity t; pinned := pinned t; published := published t;
     datac := datac t; entropy := entropy t |}.

Definition set_HashPasses (m : gmap string string) (t : TextileNode) : TextileNode :=
  {| Datastore := Datastore t; HashPasses := m;
     GatewayProxy_Addr := GatewayProxy_Addr t; Online := Online t;
     Identity := Identity t; pinned := pinned t; published := published t;
     datac := datac t; entropy := entropy t |}.

Definition set_pinned (l : list (string * bool)) (t : TextileNode) : TextileNode :=
  {| Datastore := Datastore t; HashPasses := HashPasses t;
     GatewayProxy_Addr := GatewayProxy_Addr t; Online := Online t;
     Identity := Identity t; pinned := l; published := published t;
     datac := datac t; entropy := entropy t |}.

Definition set_published (l : list (string * bytes)) (t : TextileNode) : TextileNode :=
  {| Datastore := Datastore t; HashPasses := HashPasses t;
     GatewayProxy_Addr := GatewayProxy_Addr t; Online := Online t;
     Identity := Identity t; pinned := pinned t; published := l;
     datac := datac t; entropy := entropy t |}.

Definition set_datac (c : chan ThreadUpdate) (t : TextileNode) : TextileNode :=
  {| Datastore := Datastore t; HashPasses := HashPasses t;
     GatewayProxy_Addr := GatewayProxy_Addr t; Online := Online t;
     Identity := Identity t; pinned := pinned t; published := published t;
     datac := c; entropy := entropy t |}.

Definition set_entropy (n : nat) (t : TextileNode) : TextileNode :=
  {| Datastore := Datastore t; HashPasses := HashPasses t;
     GatewayProxy_Addr := GatewayProxy_Addr t; Online := Online t;
     Identity := Identity t; pinned := pinned t; published := published t;
     datac := datac t; entropy := n |}.

(** ** The monad of the node's methods

    A method reads and updates the node and writes log lines.  The node
    type is left open: the earlier revision of the node has its own. *)

Definition MS (S A : Type) : Type := S -> A * S * list logline.

Abbreviation M := (MS TextileNode).

Definition ret {S A : Type} (a : A) : MS S A := fun t => (a, t, []).

Definition bind {S A B : Type} (m : MS S A) (k : A -> MS S B) : MS S B :=
  fun t =>
    match m t with
    | (a, t1, l1) =>
        match k a t1 with
        | (b, t2, l2) => (b, t2, l1 ++ l2)
        end
    end.

Definition gets {S A : Type} (f : S -> A) : MS S A := fun t => (f t, t, []).

Definition modify {S : Type} (f : S -> S) : MS S unit := fun t => (tt, f t, []).

Definition logf {S : Type} (lv : level) (fmt : string) (a : list string) : MS S unit :=
  fun t => (tt, t, [Log lv fmt a]).

Declare Scope node_scope.
Delimit Scope node_scope with node.
Notation "'let*' x ':=' m 'in' k" := (bind m (fun x => k))
  (at level 10, x name, m at level 100, k at level 200) : node_scope.
Notation "m ';;' k" := (bind m (fun _ => k))
  (at level 100, k at level 200, right associativity) : node_scope.
Open Scope node_scope.

Definition ErrNodeNotRunning : string := "node is not running".

(** ** The collaborators outside the core

    The object store, the bus, the file system and the JSON decoder are
    libraries; net.Decrypt and photos.Add are functions of this repository
    that are declared outside the sources at hand.  All are used through
    their interfaces only and taken as given; an availability that does
    not change during a run is a function of the path. *)

Record External : Type := {
  (* coreapi.ParsePath followed by ip.String() *)
  ParsePath : string -> result string;
  (* api.Pin().Add(ctx, ip, WithRecursive(recursive)) *)
  PinAdd : string -> bool -> error;
  (* api.Unixfs().Cat(ctx, ip) followed by ioutil.ReadAll *)
  Cat : string -> result bytes;
  (* net.Decrypt(key, ciphertext) *)
  Decrypt : PrivKey -> bytes -> result bytes;
  (* json.Unmarshal(b, &data) for data of type photos.Metadata *)
  json_Unmarshal : bytes -> result photos.Metadata;
  (* os.Open(path) *)
  os_Open : string -> result bytes;
  (* sk.GetPublic() *)
  GetPublic : PrivKey -> PubKey;
  (* photos.Add(ipfs, pk, p, th, lc, un, caption): the request and the
     metadata, or an error; and the paths it pinned in the object store *)
  photos_Add : PubKey -> bytes -> bytes -> string -> string -> string ->
               result (net.MultipartRequest * photos.Metadata) * list (string * bool);
  (* Floodsub.Publish(topic, data) *)
  Publish : string -> bytes -> error;
  (* ksuid.New().String() at the n-th read of the random source *)
  ksuid_New : nat -> string
}.

Definition fmt_bool (b : bool) : string := if b then "true" else "false".

(** log.Error(msg) *)
Definition log_Error {S : Type} (msg : string) : MS S unit := logf ERROR "%s" [msg].

(** A hop of the chain walk either returns from handleHash or goes on. *)
Inductive hop (A : Type) : Type :=
| Return (err : error)
| Proceed (a : A).
Arguments Return {A} err.
Arguments Proceed {A} a.

(** What a call of handleHash gives: the error it returns, or nothing yet
    when the hops allowed to the model are used up. *)
Inductive outcome : Type :=
| Returns (err : error)
| OutOfFuel.

Record Message : Type := { GetFrom : string; GetData : bytes }.

Section Core.

Variable ext : External.

(** pinPath takes an ipfs path string and pins it *)
Definition pinPath (path : string) (recursive : bool) : M error :=
  match ParsePath ext path with
  | Err e =>
      logf ERROR "error pinning path: %s, recursive: %t: %s"
           [path; fmt_bool recursive; e] ;;
      ret (Some e)
  | Ok ip =>
      match PinAdd ext ip recursive with
      | Some e => ret (Some e)
      | None =>
          modify (fun t => set_pinned (pinned t ++ [(ip, recursive)]) t) ;;
          ret None
      end
  end.

(** getDataAtPath cats any data under an ipfs path *)
Definition getDataAtPath (path : string) : result bytes :=
  match ParsePath ext path with
  | Err e => Err e
  | Ok ip => Cat ext ip
  end.

(** LoadPhotoAndAlbum get the indexed photo and album for a hash *)
Definition LoadPhotoAndAlbum (hash : string) (t : TextileNode)
    : result (trepo.PhotoSet * trepo.PhotoAlbum) :=
  if negb (Online t) then Err ErrNodeNotRunning
  else
    match trepo.GetPhoto hash (Datastore t) with
    | None => Err ("photo " +:+ hash +:+ " not found")
    | Some ph =>
        match trepo.GetAlbum (trepo.AlbumID ph) (Datastore t) with
        | None => Err ("could not find album: " +:+ trepo.AlbumID ph)
        | Some album => Ok (ph, album)
        end
    end.

(** GetFile cats data from the ipfs node; the album is looked up if not
    present. *)
Definition GetFile (path : string) (album : option trepo.PhotoAlbum)
    : M (result bytes) :=
  let* online := gets Online in
  if negb online then ret (Err ErrNodeNotRunning)
  else
    match getDataAtPath path with
    | Err e => logf ERROR "error getting file data: %s" [e] ;; ret (Err e)
    | Ok cb =>
        match ParsePath ext path with
        | Err e => logf ERROR "error parsing path: %s" [e] ;; ret (Err e)
        | Ok ip =>
            let tmp := Split ip "/" in
            if length tmp <? 3 then
              let e := "bad path: " +:+ path in
              log_Error e ;; ret (Err e)
            else
              let ci := nth 2 tmp EmptyString in
              let* found :=
                match album with
                | Some a => ret (Ok a)
                | None =>
                    let* r := gets (LoadPhotoAndAlbum ci) in
                    match r with
                    | Err e => log_Error e ;; ret (Err e)
                    | Ok (_, a) => ret (Ok a)
                    end
                end in
              match found with
              | Err e => ret (Err e)
              | Ok a =>
                  match Decrypt ext (trepo.Key a) cb with
                  | Err e =>
                      logf ERROR "error decrypting file: %s" [e] ;; ret (Err e)
                  | Ok b => ret (Ok b)
                  end
              end
        end
    end.

(** GetMetaData returns metadata under a hash *)
Definition GetMetaData (hash : string) (album : option trepo.PhotoAlbum)
    : M (result photos.Metadata) :=
  let* online := gets Online in
  if negb online then ret (Err ErrNodeNotRunning)
  else
    let* r := GetFile (hash +:+ "/meta") album in
    match r with
    | Err e =>
        logf ERROR "error getting meta file with hash: %s: %s" [hash; e] ;;
        ret (Err e)
    | Ok b =>
        match json_Unmarshal ext b with
        | Err e =>
            logf ERROR "error unmarshaling meta file with hash: %s: %s" [hash; e] ;;
            ret (Err e)
        | Ok data => ret (Ok data)
        end
    end.

(** GetCaption return the caption under a hash *)
Definition GetCaption (hash : string) (album : option trepo.PhotoAlbum)
    : M (result string) :=
  let* online := gets Online in
  if negb online then ret (Err ErrNodeNotRunning)
  else
    let* r := GetFile (hash +:+ "/caption") album in
    match r with
    | Err e =>
        logf ERROR "error getting caption file with hash: %s: %s" [hash; e] ;;
        ret (Err e)
    | Ok b => ret (Ok b)
    end.

(** GetLastHash return the last update's root cid under a hash *)
Definition GetLastHash (hash : string) (album : option trepo.PhotoAlbum)
    : M (result string) :=
  let* online := gets Online in
  if negb online then ret (Err ErrNodeNotRunning)
  else
    let* r := GetFile (hash +:+ "/last") album in
    match r with
    | Err e =>
        logf ERROR "error getting last hash file with hash: %s: %s" [hash; e] ;;
        ret (Err e)
    | Ok b => ret (Ok b)
    end.

(** t.Datastore.Photos().Put(set) *)
Definition Photos_Put (set : trepo.PhotoSet) : M error :=
  fun t =>
    match trepo.PutPhoto set (Datastore t) with
    | (e, ds) => (e, set_Datastore ds t, [])
    end.

(** *** handleHash, hop by hop

    The body of handleHash falls into three stretches of code: the look-up
    of the album and of the hash in the index, the pinning and unpacking
    of the bundle, and the insertion in the index with the notification.
    Nothing is held between them, so another goroutine may run there. *)

(** From "look up the album" to "check if we aleady have this hash". *)
Definition hop_check (hash aid : string) : M (hop trepo.PhotoAlbum) :=
  let* a := gets (fun t => trepo.GetAlbum aid (Datastore t)) in
  match a with
  | None => ret (Return (Some ("could not find album with id: " +:+ aid)))
  | Some a =>
      if String.eqb hash EmptyString then
        logf DEBUG "found genesis update, aborting" [] ;;
        ret (Return None)
      else
        logf DEBUG "handling update: %s..." [hash] ;;
        let* set := gets (fun t => trepo.GetPhoto hash (Datastore t)) in
        match set with
        | Some _ =>
            logf DEBUG "update %s exists, aborting" [hash] ;;
            ret (Return None)
        | None => ret (Proceed a)
        end
  end.

(** From "pin the dag structure" to the unpacking of the caption. *)
Definition hop_fetch (hash : string) (a : trepo.PhotoAlbum)
    : M (hop (photos.Metadata * string * string)) :=
  logf DEBUG "pinning %s..." [hash] ;;
  let* err := pinPath hash false in
  match err with
  | Some e => ret (Return (Some e))
  | None =>
  logf DEBUG "pinning %s/thumb..." [hash] ;;
  let* err := pinPath (hash +:+ "/thumb") false in
  match err with
  | Some e => ret (Return (Some e))
  | None =>
  logf DEBUG "pinning %s/meta..." [hash] ;;
  let* err := pinPath (hash +:+ "/meta") false in
  match err with
  | Some e => ret (Return (Some e))
  | None =>
  logf DEBUG "pinning %s/last..." [hash] ;;
  let* err := pinPath (hash +:+ "/last") false in
  match err with
  | Some e => ret (Return (Some e))
  | None =>
  (* pin the caption (may not exist, ignore error) *)
  logf DEBUG "pinning %s/caption..." [hash] ;;
  let* _ := pinPath (hash +:+ "/caption") false in
  logf DEBUG "unpacking %s..." [hash] ;;
  let* md := GetMetaData hash (Some a) in
  match md with
  | Err e => ret (Return (Some e))
  | Ok md =>
  let* last := GetLastHash hash (Some a) in
  match last with
  | Err e => ret (Return (Some e))
  | Ok last =>
  let* caption := GetCaption hash (Some a) in
  let caption := match caption with Err _ => EmptyString | Ok c => c end in
  ret (Proceed (md, last, caption))
  end end end end end end.

(** From "index" to the non-blocking send; gives the back-pointer on. *)
Definition hop_index (hash aid : string) (a : trepo.PhotoAlbum)
    (md : photos.Metadata) (last caption : string) : M (hop string) :=
  logf DEBUG "indexing %s..." [hash] ;;
  let set := {| trepo.Cid := hash; trepo.LastCid := last; trepo.AlbumID := aid;
                trepo.MetaData := md; trepo.Caption := caption;
                trepo.IsLocal := false |} in
  let* err := Photos_Put set in
  match err with
  | Some e => ret (Return (Some e))
  | None =>
      (* don't block on the send since nobody might be listening *)
      modify (fun t =>
        set_datac (send_or_drop (datac t)
          {| tu_Cid := hash; tu_Thread := trepo.Name a;
             tu_ThreadID := trepo.Id a |}) t) ;;
      ret (Proceed last)
  end.

(** handleHash tries to process an update sent to a thread; [fuel] bounds
    the number of nested calls. *)
Fixpoint handleHash (fuel : nat) (hash aid : string) : M outcome :=
  match fuel with
  | O => ret OutOfFuel
  | S fuel =>
      let* c := hop_check hash aid in
      match c with
      | Return e => ret (Returns e)
      | Proceed a =>
          let* f := hop_fetch hash a in
          match f with
          | Return e => ret (Returns e)
          | Proceed (md, last, caption) =>
              let* i := hop_index hash aid a md last caption in
              match i with
              | Return e => ret (Returns e)
              | Proceed last => handleHash fuel last aid   (* check last hash *)
              end
          end
      end
  end.

(** handleRoomUpdate tries to recursively process an update sent to a
    thread. *)
Definition handleRoomUpdate (fuel : nat) (msg : Message) (aid : string)
    : M outcome :=
  let from := GetFrom msg in
  let* me := gets Identity in
  if String.eqb from me then ret (Returns None)
  else
    let data := GetData msg in
    (* determine if this is from a relay node *)
    let tmp := Split data ":" in
    let '(hash, from) :=
      if (1 <? length tmp) && String.eqb (nth 0 tmp EmptyString) "relay"
      then (nth 1 tmp EmptyString, "relay:" +:+ from)
      else (nth 0 tmp EmptyString, from) in
    logf DEBUG "got update from %s in room %s" [from; aid] ;;
    (* recurse back in time starting at this hash *)
    handleHash fuel hash aid.

End Core.

(** ** Local publish, republish and the gateway *)

Record Request : Type := {
  BasicAuth : option (string * string);   (* username and password, when sent *)
  URL_Path : string;
  RequestURI : string
}.

(** What the client receives: the status is 200 unless WriteHeader set it. *)
Record Response : Type := {
  StatusCode : nat;
  Header : list (string * string);
  Body : bytes
}.

(** The header value Basic realm=<quote>Restricted<quote>. *)
Definition quote : string :=
  String (Ascii false true false false false true false false) EmptyString.

Definition Basic_realm_Restricted : string :=
  "Basic realm=" +:+ quote +:+ "Restricted" +:+ quote.

Section Publish.

Variable ext : External.

(** t.IpfsNode.Floodsub.Publish(topic, data); a message that went out is
    kept in [published]. *)
Definition Floodsub_Publish (topic : string) (data : bytes) : M error :=
  match Publish ext topic data with
  | Some e => ret (Some e)
  | None =>
      modify (fun t => set_published (published t ++ [(topic, data)]) t) ;;
      ret None
  end.

(** AddPhoto adds a photo and its thumbnail to an album.  The goroutine
    that publishes is run where it is started. *)
Definition AddPhoto (path thumb album caption : string)
    : M (result net.MultipartRequest) :=
  let* online := gets Online in
  if negb online then ret (Err ErrNodeNotRunning)
  else
    logf DEBUG "adding photo %s to %s" [path; album] ;;
    (* read file from disk *)
    match os_Open ext path with
    | Err e => logf ERROR "error opening photo: %s" [e] ;; ret (Err e)
    | Ok p =>
    match os_Open ext thumb with
    | Err e => logf ERROR "error opening thumb: %s" [e] ;; ret (Err e)
    | Ok th =>
    (* get album private key *)
    let* a := gets (fun t => trepo.GetAlbumByName album (Datastore t)) in
    match a with
    | None =>
        let e := "could not find album: " +:+ album in
        log_Error e ;; ret (Err e)
    | Some a =>
    (* get last photo update which has local true *)
    let* recent := gets (fun t =>
      trepo.GetPhotos EmptyString 1 (trepo.album_is_and_local (trepo.Id a)) (Datastore t)) in
    let lc := match recent with [] => EmptyString | r :: _ => trepo.Cid r end in
    (match recent with
     | [] => ret tt
     | _ :: _ => logf DEBUG "found last hash: %s" [lc]
     end) ;;
    (* get username *)
    let* un := gets (fun t => trepo.GetUsername (Datastore t)) in
    let* un :=
      match un with
      | Err _ => logf ERROR "username not found (not signed in)" [] ;; ret EmptyString
      | Ok un => ret un
      end in
    (* add it *)
    let '(added, pins) :=
      photos_Add ext (GetPublic ext (trepo.Key a)) p th lc un caption in
    modify (fun t => set_pinned (pinned t ++ pins) t) ;;
    match added with
    | Err e => logf ERROR "error adding photo: %s" [e] ;; ret (Err e)
    | Ok (mr, md) =>
    (* index *)
    logf DEBUG "indexing %s..." [net.Boundary mr] ;;
    let set := {| trepo.Cid := net.Boundary mr; trepo.LastCid := lc;
                  trepo.AlbumID := trepo.Id a; trepo.MetaData := md;
                  trepo.Caption := caption; trepo.IsLocal := true |} in
    let* err := Photos_Put set in
    match err with
    | Some e => logf ERROR "error indexing photo: %s" [e] ;; ret (Err e)
    | None =>
    (* publish *)
    let* err := Floodsub_Publish (trepo.Id a) (net.Boundary mr) in
    (match err with
     | Some e => logf ERROR "error publishing photo update: %s" [e]
     | None => ret tt
     end) ;;
    logf DEBUG "published update to %s" [trepo.Id a] ;;
    ret (Ok mr)
    end end end end end.

(** The loop of republishLatestUpdates over the albums that are left; the
    goroutine that publishes is run where it is started. *)
Fixpoint republish_range (albums : list trepo.PhotoAlbum) : M unit :=
  match albums with
  | [] => ret tt
  | a :: albums =>
      (* find latest local update *)
      let* recent := gets (fun t =>
        trepo.GetPhotos EmptyString 1 (trepo.album_is_and_local (trepo.Id a)) (Datastore t)) in
      match recent with
      | [] => ret tt                                   (* return *)
      | r :: _ =>
          let latest := trepo.Cid r in
          (* publish it *)
          logf DEBUG "starting re-publish..." [] ;;
          let* err := Floodsub_Publish (trepo.Id a) latest in
          (match err with
           | Some e => logf ERROR "error re-publishing update: %s" [e]
           | None => ret tt
           end) ;;
          logf DEBUG "re-published %s to %s" [latest; trepo.Id a] ;;
          republish_range albums
      end
  end.

(** republishLatestUpdates interates through albums, publishing each ones
    latest update *)
Definition republishLatestUpdates : M unit :=
  let* albums := gets (fun t => trepo.GetAlbums (Datastore t)) in
  republish_range albums.

(** GetHashRequest returns a single-use token for requesting content via
    the gateway *)
Definition GetHashRequest (hash : string) : M HashRequest :=
  let* n := gets entropy in
  let token := ksuid_New ext n in
  modify (set_entropy (S n)) ;;
  modify (fun t => set_HashPasses (<[hash := token]> (HashPasses t)) t) ;;
  let* addr := gets GatewayProxy_Addr in
  ret {| Token := token; Protocol := "http"; Host := addr |}.

(** The handler that registerGatewayHandler installs on "/". *)
Definition gatewayHandler (r : Request) : M Response :=
  logf DEBUG "gateway request: %s" [RequestURI r] ;;
  match BasicAuth r with
  | None =>
      ret {| StatusCode := 401;
             Header := [("WWW-Authenticate", Basic_realm_Restricted)];
             Body := EmptyString |}
  | Some (_, password) =>
      (* parse root hash of path *)
      let tmp := Split (URL_Path r) "/" in
      if length tmp <? 3 then
        log_Error ("bad path: " +:+ URL_Path r) ;;
        ret {| StatusCode := 200; Header := []; Body := EmptyString |}
      else
        let ci := Join (drop 2 tmp) "/" in
        let* pass := gets (fun t => default EmptyString (HashPasses t !! ci)) in
        if negb (String.eqb password pass) then
          logf DEBUG "wrong password: %s" [ci; pass] ;;
          ret {| StatusCode := 401; Header := []; Body := EmptyString |}
        else
          (* invalidate previous password
             t.HashPasses[username] = ksuid.New().String() *)
          let* b := GetFile ext (URL_Path r) None in
          match b with
          | Err e =>
              logf ERROR "error decrypting path %s: %s" [URL_Path r; e] ;;
              ret {| StatusCode := 400; Header := []; Body := EmptyString |}
          | Ok b => ret {| StatusCode := 200; Header := []; Body := b |}
          end
  end.

End Publish.

(** ** Identities from mnemonic phrases *)

Inductive KeyType : Type := RSA | Ed25519 | Secp256k1.

(** The cryptographic libraries, through their interfaces.  A reader is
    given by the bytes it will deliver; the random source of the process
    is read at a position. *)
Record Crypto : Type := {
  (* bip39.NewSeed(mnemonic, password) *)
  bip39_NewSeed : string -> string -> bytes;
  (* bip39.NewEntropy(bitSize), reading the random source *)
  bip39_NewEntropy : nat -> nat -> result bytes;
  (* bip39.NewMnemonic(entropy) *)
  bip39_NewMnemonic : bytes -> result string;
  (* hmac.New(sha256.New, key), Write(msg), Sum(nil) *)
  hmac_sha256 : bytes -> bytes -> bytes;
  (* libp2p.GenerateKeyPairWithReader(typ, bits, reader) *)
  GenerateKeyPairWithReader : KeyType -> nat -> bytes -> result (PrivKey * PubKey);
  (* sk.Bytes() *)
  PrivKey_Bytes : PrivKey -> result bytes;
  (* libp2p.UnmarshalPrivateKey(kb) *)
  UnmarshalPrivateKey : bytes -> result PrivKey;
  (* peer.IDFromPrivateKey(sk) followed by id.Pretty() *)
  IDFromPrivateKey : PrivKey -> result string
}.

Section Identity.

Variable crypto : Crypto.

(** trepo.NBitsForKeypair as the logger prints it; the constant is
    declared outside the sources at hand and is only logged. *)
Variable NBitsForKeypair : string.

(** createMnemonic creates a new mnemonic phrase with given entropy *)
Definition createMnemonic (newEntropy : nat -> result bytes)
    (newMnemonic : bytes -> result string) : result string :=
  match newEntropy 256 with
  | Err e => Err e
  | Ok entropy =>
      match newMnemonic entropy with
      | Err e => Err e
      | Ok mnemonic => Ok mnemonic
      end
  end.

(** identityKeyFromSeed returns a new key identity from a seed *)
Definition identityKeyFromSeed (seed : bytes) : result bytes :=
  let reader := hmac_sha256 crypto "scythian horde" seed in
  (* bits are not meaningful w/ this method in ed25519, so specify whatever *)
  match GenerateKeyPairWithReader crypto Ed25519 2048 reader with
  | Err e => Err e
  | Ok (sk, _) =>
      match PrivKey_Bytes crypto sk with
      | Err e => Err e
      | Ok encodedKey => Ok encodedKey
      end
  end.

(** RegisterAlbum up to the album it is about to store.  It hands
    identityKeyFromSeed the seed and trepo.NBitsForKeypair; the function at
    hand takes the seed alone and names the bits itself, which are not
    meaningful for Ed25519. *)
Definition albumFromMnemonic (mnemonic name : string) : M (result trepo.PhotoAlbum) :=
  (* create the bip39 seed from the phrase *)
  let seed := bip39_NewSeed crypto mnemonic EmptyString in
  match identityKeyFromSeed seed with
  | Err e => logf ERROR "error creating identity from seed: %s" [e] ;; ret (Err e)
  | Ok kb =>
      (* convert to a libp2p crypto private key *)
      match UnmarshalPrivateKey crypto kb with
      | Err e => logf ERROR "error unmarshaling private key: %s" [e] ;; ret (Err e)
      | Ok sk =>
          (* we need the resultant peer id to use as the album's id *)
          match IDFromPrivateKey crypto sk with
          | Err e => logf ERROR "error getting id from priv key: %s" [e] ;; ret (Err e)
          | Ok id =>
              ret (Ok {| trepo.Id := id; trepo.Key := sk;
                         trepo.Mnemonic := mnemonic; trepo.Name := name |})
          end
      end
  end.

Definition RegisterAlbum (mnemonic name : string) : M error :=
  let* album := albumFromMnemonic mnemonic name in
  match album with
  | Err e => ret (Some e)
  | Ok album =>
      (* finally, create the album *)
      fun t =>
        match trepo.PutAlbum album (Datastore t) with
        | (e, ds) => (e, set_Datastore ds t, [])
        end
  end.

(** CreateAlbum creates an album with a given name and mnemonic words
    (with a datastore connection that touchDB finds in order) *)
Definition CreateAlbum (mnemonic name : string) : M error :=
  logf DEBUG "creating a new album: %s" [name] ;;
  (* use phrase if provided *)
  if String.eqb mnemonic EmptyString then
    let* n := gets entropy in
    modify (set_entropy (S n)) ;;
    match createMnemonic (fun bits => bip39_NewEntropy crypto bits n)
                         (bip39_NewMnemonic crypto) with
    | Err e => logf ERROR "error creating mnemonic: %s" [e] ;; ret (Some e)
    | Ok mnemonic =>
        logf DEBUG "generating %v-bit Ed25519 keypair for: %s" [NBitsForKeypair; name] ;;
        RegisterAlbum mnemonic name
    end
  else
    logf DEBUG "regenerating Ed25519 keypair from mnemonic phrase for: %s" [name] ;;
    RegisterAlbum mnemonic name.

(** The identity a run of the derivation ends with: thread id and private
    key, or the error. *)
Definition derived (r : result trepo.PhotoAlbum) : result (string * PrivKey) :=
  match r with
  | Err e => Err e
  | Ok a => Ok (trepo.Id a, trepo.Key a)
  end.

End Identity.

(** ** Goroutines walking the same chain

    JoinRoom starts one goroutine per message, each calling
    handleRoomUpdate and so handleHash.  A goroutine inside handleHash is at
    one of the three stretches of a hop, or has returned. *)

Inductive walker : Type :=
| AtCheck (hash : string)
| AtFetch (hash : string) (a : trepo.PhotoAlbum)
| AtIndex (hash : string) (a : trepo.PhotoAlbum) (md : photos.Metadata)
          (last caption : string)
| Finished (err : error).

Section Walkers.

Variable ext : External.

(** Run the stretch of code the goroutine is at. *)
Definition walker_step (aid : string) (w : walker) : M walker :=
  match w with
  | AtCheck hash =>
      let* c := hop_check hash aid in
      match c with
      | Return e => ret (Finished e)
      | Proceed a => ret (AtFetch hash a)
      end
  | AtFetch hash a =>
      let* f := hop_fetch ext hash a in
      match f with
      | Return e => ret (Finished e)
      | Proceed (md, last, caption) => ret (AtIndex hash a md last caption)
      end
  | AtIndex hash a md last caption =>
      let* i := hop_index hash aid a md last caption in
      match i with
      | Return e => ret (Finished e)
      | Proceed last => ret (AtCheck last)
      end
  | Finished e => ret (Finished e)
  end.

(** One goroutine on its own, for [n] stretches. *)
Fixpoint run_walker (n : nat) (aid : string) (w : walker) : M walker :=
  match n with
  | O => ret w
  | S n => let* w' := walker_step aid w in run_walker n aid w'
  end.

(** Two goroutines of the same room under a schedule: [true] lets the
    first run its next stretch, [false] the second. *)
Fixpoint interleave (sched : list bool) (aid : string) (w1 w2 : walker)
    : M (walker * walker) :=
  match sched with
  | [] => ret (w1, w2)
  | true :: sched =>
      let* w1' := walker_step aid w1 in interleave sched aid w1' w2
  | false :: sched =>
      let* w2' := walker_step aid w2 in interleave sched aid w1 w2'
  end.

End Walkers.

(** ** Bundles in the object store and chains of them *)

Section Bundles.

Variable ext : External.

(** The path can be pinned (not recursively). *)
Definition pinnable (path : string) : bool :=
  match ParsePath ext path with
  | Ok ip => match PinAdd ext ip false with None => true | Some _ => false end
  | Err _ => false
  end.

(** The plaintext under a path for the holder of the key, when the path
    can be read, names a root hash and decrypts. *)
Definition part (path : string) (key : PrivKey) : option bytes :=
  match ParsePath ext path with
  | Ok ip =>
      match Cat ext ip with
      | Ok cb =>
          if length (Split ip "/") <? 3 then None
          else match Decrypt ext key cb with
               | Ok b => Some b
               | Err _ => None
               end
      | Err _ => None
      end
  | Err _ => None
  end.

(** The record [r] is what the bundle under [Cid r] holds for the album:
    root, thumb, meta and last can be pinned, meta decodes to the metadata
    of [r], last decrypts to its back-pointer, and its caption is the one
    of the bundle, or empty when the bundle has none to read. *)
Definition stored (a : trepo.PhotoAlbum) (r : trepo.PhotoSet) : Prop :=
  let h := trepo.Cid r in
  pinnable h = true /\
  pinnable (h +:+ "/thumb") = true /\
  pinnable (h +:+ "/meta") = true /\
  pinnable (h +:+ "/last") = true /\
  (exists b, part (h +:+ "/meta") (trepo.Key a) = Some b /\
             json_Unmarshal ext b = Ok (trepo.MetaData r)) /\
  part (h +:+ "/last") (trepo.Key a) = Some (trepo.LastCid r) /\
  trepo.Caption r = default EmptyString (part (h +:+ "/caption") (trepo.Key a)).

(** [recs] is the chain of remote records that starts at [head] and ends
    in the genesis pointer, newest first. *)
Fixpoint linked (a : trepo.PhotoAlbum) (head : string)
    (recs : list trepo.PhotoSet) : Prop :=
  match recs with
  | [] => head = EmptyString
  | r :: recs =>
      head <> EmptyString /\ trepo.Cid r = head /\
      trepo.AlbumID r = trepo.Id a /\ trepo.IsLocal r = false /\
      stored a r /\ linked a (trepo.LastCid r) recs
  end.

(** The notifications of a walk over [recs], sent without blocking. *)
Definition notify_all (a : trepo.PhotoAlbum) (recs : list trepo.PhotoSet)
    (c : chan ThreadUpdate) : chan ThreadUpdate :=
  foldl (fun c r =>
           send_or_drop c {| tu_Cid := trepo.Cid r; tu_Thread := trepo.Name a;
                             tu_ThreadID := trepo.Id a |})
        c recs.

End Bundles.

(** The node after a hop that pinned [p], indexed [r] and told the
    listener, if one had room. *)
Definition after_hop (a : trepo.PhotoAlbum) (r : trepo.PhotoSet)
    (p : list (string * bool)) (t : TextileNode) : TextileNode :=
  let t := set_pinned (pinned t ++ p) t in
  set_datac
    (send_or_drop (datac t)
       {| tu_Cid := trepo.Cid r; tu_Thread := trepo.Name a; tu_ThreadID := trepo.Id a |})
    (set_Datastore
       {| trepo.albums := trepo.albums (Datastore t);
          trepo.photos := r :: trepo.photos (Datastore t);
          trepo.username := trepo.username (Datastore t) |} t).

(** The node after a walk that pinned [p] and indexed the chain [recs]. *)
Definition after_walk (a : trepo.PhotoAlbum) (recs : list trepo.PhotoSet)
    (p : list (string * bool)) (t : TextileNode) : TextileNode :=
  let t := set_pinned (pinned t ++ p) t in
  set_datac (notify_all a recs (datac t))
    (set_Datastore
       {| trepo.albums := trepo.albums (Datastore t);
          trepo.photos := reverse recs ++ trepo.photos (Datastore t);
          trepo.username := trepo.username (Datastore t) |} t).

(** The log of a relayed announcement: the origin in the first line carries
    the relay tag. *)
Definition tag_relay (l : list logline) : list logline :=
  match l with
  | Log lv fmt (from :: rest) :: l' => Log lv fmt (("relay:" +:+ from) :: rest) :: l'
  | _ => l
  end.

(** The back-pointer and the user name AddPhoto hands to photos.Add: the
    content id of the latest local update of the album, if any, and the name
    of the signed-in user, if any. *)
Definition last_local (a : trepo.PhotoAlbum) (t : TextileNode) : string :=
  match trepo.GetPhotos EmptyString 1 (trepo.album_is_and_local (trepo.Id a)) (Datastore t) with
  | [] => EmptyString
  | r :: _ => trepo.Cid r
  end.

Definition signed_in_as (t : TextileNode) : string :=
  match trepo.GetUsername (Datastore t) with
  | Ok un => un
  | Err _ => EmptyString
  end.

(** A method keeps a part of the node: whatever the node, the part is the
    same after the call. *)
Definition keeps {A X : Type} (f : TextileNode -> X) (m : M A) : Prop :=
  forall t, f (m t).1.2 = f t.

(** Whatever the node, the value a method gives has the property. *)
Definition yields {A : Type} (P : A -> Prop) (m : M A) : Prop :=
  forall t, P (m t).1.1.

(** A stretch of a hop does not return nil from handleHash. *)
Definition no_nil_return {A : Type} (h : hop A) : Prop :=
  match h with
  | Return None => False
  | _ => True
  end.

(** The records the index holds for a content id. *)
Definition records_of (cid : string) (ds : trepo.Datastore) : list trepo.PhotoSet :=
  filter (fun p => trepo.Cid p = cid) (trepo.photos ds).

(** The index holds at most one record for a content id. *)
Definition unique_index (ds : trepo.Datastore) : Prop :=
  NoDup (trepo.Cid <$> trepo.photos ds).

(** The payload is a relay frame: the word relay, a colon, and more. *)
Definition relay_framed (data : string) : bool :=
  let tmp := Split data ":" in
  (1 <? length tmp) && String.eqb (nth 0 tmp EmptyString) "relay".

(** A content id as the object store names it: no colon in it. *)
Definition content_id (h : string) : Prop := length (Split h ":") = 1.

(** ** A small world to run the code in *)

Module Demo.

Definition store : list (string * option bytes) :=
  [ ("/ipfs/Qm2", None);
    ("/ipfs/Qm2/photo", Some "photo2");
    ("/ipfs/Qm2/thumb", Some "thumb2");
    ("/ipfs/Qm2/meta", Some "meta2");
    ("/ipfs/Qm2/last", Some "Qm1");
    ("/ipfs/Qm2/caption", Some "hello");
    ("/ipfs/Qm1", None);
    ("/ipfs/Qm1/photo", Some "photo1");
    ("/ipfs/Qm1/thumb", Some "thumb1");
    ("/ipfs/Qm1/meta", Some "meta1");
    ("/ipfs/Qm1/last", Some EmptyString) ].

Definition lookup_path (p : string) : option (option bytes) :=
  snd <$> find (fun e => String.eqb (fst e) p) store.

Definition timeout : string := "context deadline exceeded".

Definition meta_of (b : bytes) : photos.Metadata :=
  {| photos.Name := b; photos.Size := 0; photos.ContentType := "image/jpeg";
     photos.Ext := ".jpg"; photos.Created := "2018-05-01" |}.

Definition ext : External :=
  {| ParsePath := fun p =>
       if String.prefix "/ipfs/" p then Ok p else Ok ("/ipfs/" +:+ p);
     PinAdd := fun ip _ =>
       match lookup_path ip with Some _ => None | None => Some timeout end;
     Cat := fun ip =>
       match lookup_path ip with
       | Some (Some b) => Ok b
       | Some None => Err "this dag node is a directory"
       | None => Err timeout
       end;
     Decrypt := fun _ cb => Ok cb;
     json_Unmarshal := fun b => Ok (meta_of b);
     os_Open := fun p => Ok p;
     GetPublic := fun sk => sk;
     photos_Add := fun _ _ _ _ _ _ => (Err "disk full", []);
     Publish := fun _ _ => None;
     ksuid_New := fun n => "ksuid-" +:+ pretty n |}.

(** The same collaborators with a photos.Add that stores the bundle Qm7. *)
Definition ext_adding : External :=
  {| ParsePath := ParsePath ext; PinAdd := PinAdd ext; Cat := Cat ext;
     Decrypt := Decrypt ext; json_Unmarshal := json_Unmarshal ext;
     os_Open := os_Open ext; GetPublic := GetPublic ext;
     photos_Add := fun _ _ _ _ _ _ =>
       (Ok ({| net.Boundary := "Qm7" |}, meta_of "meta7"), [("/ipfs/Qm7", true)]);
     Publish := Publish ext; ksuid_New := ksuid_New ext |}.

Definition album1 : trepo.PhotoAlbum :=
  {| trepo.Id := "thread1"; trepo.Key := "key1";
     trepo.Mnemonic := "phrase one"; trepo.Name := "album1" |}.

Definition album2 : trepo.PhotoAlbum :=
  {| trepo.Id := "thread2"; trepo.Key := "key2";
     trepo.Mnemonic := "phrase two"; trepo.Name := "album2" |}.

Definition remote (cid last caption meta : string) : trepo.PhotoSet :=
  {| trepo.Cid := cid; trepo.LastCid := last; trepo.AlbumID := "thread1";
     trepo.MetaData := meta_of meta; trepo.Caption := caption;
     trepo.IsLocal := false |}.

Definition chain : list trepo.PhotoSet :=
  [ remote "Qm2" "Qm1" "hello" "meta2"; remote "Qm1" EmptyString EmptyString "meta1" ].

(** A node that knows album1 and has indexed nothing. *)
Definition node : TextileNode :=
  {| Datastore := {| trepo.albums := [album1]; trepo.photos := [];
                     trepo.username := Some "alice" |};
     HashPasses := ∅;
     GatewayProxy_Addr := "127.0.0.1:9192";
     Online := true;
     Identity := "QmMe";
     pinned := [];
     published := [];
     datac := {| room := 8; delivered := [] |};
     entropy := 0 |}.

(** A node with two albums of which only the second has a local update. *)
Definition local2 : trepo.PhotoSet :=
  {| trepo.Cid := "Qm9"; trepo.LastCid := EmptyString; trepo.AlbumID := "thread2";
     trepo.MetaData := meta_of "meta9"; trepo.Caption := EmptyString;
     trepo.IsLocal := true |}.

Definition node2 : TextileNode :=
  set_Datastore {| trepo.albums := [album1; album2]; trepo.photos := [local2];
                   trepo.username := Some "alice" |} node.

(** A node that has indexed the head of the chain. *)
Definition node3 : TextileNode :=
  set_Datastore {| trepo.albums := [album1];
                   trepo.photos := [remote "Qm1" EmptyString EmptyString "meta1"];
                   trepo.username := Some "alice" |} node.

Definition get_photo (token : string) : Request :=
  {| BasicAuth := Some ("TextileNode", token);
     URL_Path := "/ipfs/Qm1/photo";
     RequestURI := "/ipfs/Qm1/photo" |}.

End Demo.

(** ** The earlier revision of the node

    src/core/core.go is the file of package core before captions, relay
    frames, hash requests and the online checks came in.  Its handleHash
    pins the bundle recursively in one call, its listener channel carries
    the hash, and its handleRoomUpdate hands every message to handleHash. *)

Module Legacy.

Record TextileNode : Type := {
  Datastore : trepo.Datastore;
  GatewayPassword : string;
  pinned : list (string * bool);
  published : list (string * bytes);
  datac : chan string
}.

Definition set_Datastore (ds : trepo.Datastore) (t : TextileNode) : TextileNode :=
  {| Datastore := ds; GatewayPassword := GatewayPassword t; pinned := pinned t;
     published := published t; datac := datac t |}.

Definition set_pinned (l : list (string * bool)) (t : TextileNode) : TextileNode :=
  {| Datastore := Datastore t; GatewayPassword := GatewayPassword t; pinned := l;
     published := published t; datac := datac t |}.

Definition set_published (l : list (string * bytes)) (t : TextileNode) : TextileNode :=
  {| Datastore := Datastore t; GatewayPassword := GatewayPassword t; pinned := pinned t;
     published := l; datac := datac t |}.

Definition set_datac (c : chan string) (t : TextileNode) : TextileNode :=
  {| Datastore := Datastore t; GatewayPassword := GatewayPassword t; pinned := pinned t;
     published := published t; datac := c |}.

Abbreviation L := (MS TextileNode).

Section Core.

Variable ext : External.

Definition LoadPhotoAndAlbum (hash : string) (t : TextileNode)
    : result (trepo.PhotoSet * trepo.PhotoAlbum) :=
  match trepo.GetPhoto hash (Datastore t) with
  | None => Err ("photo " +:+ hash +:+ " not found")
  | Some ph =>
      match trepo.GetAlbum (trepo.AlbumID ph) (Datastore t) with
      | None => Err ("could not find album: " +:+ trepo.AlbumID ph)
      | Some album => Ok (ph, album)
      end
  end.

(** pass in Qm../thumb, or Qm../photo for full image; album is looked up if
    not present *)
Definition GetFile (path : string) (album : option trepo.PhotoAlbum)
    : L (result bytes) :=
  match getDataAtPath ext path with
  | Err e => logf ERROR "error getting file data: %s" [e] ;; ret (Err e)
  | Ok cb =>
      match ParsePath ext path with
      | Err e => logf ERROR "error parsing path: %s" [e] ;; ret (Err e)
      | Ok ip =>
          let tmp := Split ip "/" in
          if length tmp <? 3 then
            let e := "bad path: " +:+ path in
            log_Error e ;; ret (Err e)
          else
            let ci := nth 2 tmp EmptyString in
            let* found :=
              match album with
              | Some a => ret (Ok a)
              | None =>
                  let* r := gets (LoadPhotoAndAlbum ci) in
                  match r with
                  | Err e => log_Error e ;; ret (Err e)
                  | Ok (_, a) => ret (Ok a)
                  end
              end in
            match found with
            | Err e => ret (Err e)
            | Ok a =>
                match Decrypt ext (trepo.Key a) cb with
                | Err e => logf ERROR "error decrypting file: %s" [e] ;; ret (Err e)
                | Ok b => ret (Ok b)
                end
            end
      end
  end.

Definition GetMetaData (hash : string) (album : option trepo.PhotoAlbum)
    : L (result photos.Metadata) :=
  let* r := GetFile (hash +:+ "/meta") album in
  match r with
  | Err e =>
      logf ERROR "error getting meta file with hash: %s: %s" [hash; e] ;;
      ret (Err e)
  | Ok b =>
      match json_Unmarshal ext b with
      | Err e =>
          logf ERROR "error unmarshaling meta file with hash: %s: %s" [hash; e] ;;
          ret (Err e)
      | Ok data => ret (Ok data)
      end
  end.

Definition GetLastHash (hash : string) (album : option trepo.PhotoAlbum)
    : L (result string) :=
  let* r := GetFile (hash +:+ "/last") album in
  match r with
  | Err e =>
      logf ERROR "error getting last hash file with hash: %s: %s" [hash; e] ;;
      ret (Err e)
  | Ok b => ret (Ok b)
  end.

Definition Photos_Put (set : trepo.PhotoSet) : L error :=
  fun t =>
    match trepo.PutPhoto set (Datastore t) with
    | (e, ds) => (e, set_Datastore ds t, [])
    end.

(** handleHash of the earlier revision; [fuel] bounds the nested calls. *)
Fixpoint handleHash (fuel : nat) (hash aid : string) : L outcome :=
  match fuel with
  | O => ret OutOfFuel
  | S fuel =>
      (* look up the album *)
      let* a := gets (fun t => trepo.GetAlbum aid (Datastore t)) in
      match a with
      | None => ret (Returns (Some ("could not find album with id: " +:+ aid)))
      | Some a =>
      (* first update? *)
      if String.eqb hash EmptyString then
        logf INFO "found genesis update, aborting" [] ;;
        ret (Returns None)
      else
      logf INFO "handling update: %s..." [hash] ;;
      (* convert string to an ipfs path *)
      match ParsePath ext hash with
      | Err e => ret (Returns (Some e))
      | Ok ip =>
      (* check if we aleady have this hash *)
      let* set := gets (fun t => trepo.GetPhoto hash (Datastore t)) in
      match set with
      | Some _ =>
          logf INFO "update %s exists, aborting" [hash] ;;
          ret (Returns None)
      | None =>
      (* pin it *)
      logf INFO "pinning %s recursively..." [hash] ;;
      match PinAdd ext ip true with
      | Some e => ret (Returns (Some e))
      | None =>
      modify (fun t => set_pinned (pinned t ++ [(ip, true)]) t) ;;
      (* unpack data set *)
      logf INFO "unpacking %s..." [hash] ;;
      let* md := GetMetaData hash (Some a) in
      match md with
      | Err e => ret (Returns (Some e))
      | Ok md =>
      let* last := GetLastHash hash (Some a) in
      match last with
      | Err e => ret (Returns (Some e))
      | Ok last =>
      (* index *)
      logf INFO "indexing %s..." [hash] ;;
      let set := {| trepo.Cid := hash; trepo.LastCid := last; trepo.AlbumID := aid;
                    trepo.MetaData := md; trepo.Caption := EmptyString;
                    trepo.IsLocal := false |} in
      let* err := Photos_Put set in
      match err with
      | Some e => ret (Returns (Some e))
      | None =>
      (* don't block on the send since nobody might be listening *)
      modify (fun t => set_datac (send_or_drop (datac t) hash) t) ;;
      (* check last hash *)
      handleHash fuel last aid
      end end end end end end end
  end.

Definition handleRoomUpdate (fuel : nat) (msg : Message) (aid : string) : L outcome :=
  (* unpack message *)
  let from := GetFrom msg in
  let hash := GetData msg in
  logf INFO "got update from %s in room %s" [from; aid] ;;
  (* recurse back in time starting at this hash *)
  handleHash fuel hash aid.

Fixpoint republish_range (albums : list trepo.PhotoAlbum) : L unit :=
  match albums with
  | [] => ret tt
  | a :: albums =>
      (* find latest local update *)
      let* recent := gets (fun t =>
        trepo.GetPhotos EmptyString 1 (trepo.album_is_and_local (trepo.Id a)) (Datastore t)) in
      match recent with
      | [] => ret tt                                   (* return *)
      | r :: _ =>
          let latest := trepo.Cid r in
          (* publish it *)
          logf INFO "re-publishing %s to %s..." [latest; trepo.Id a] ;;
          match Publish ext (trepo.Id a) latest with
          | Some e => logf ERROR "error re-publishing update: %s" [e]
          | None =>
              modify (fun t =>
                set_published (published t ++ [(trepo.Id a, latest)]) t)
          end ;;
          republish_range albums
      end
  end.

Definition republishLatestUpdates : L unit :=
  let* albums := gets (fun t => trepo.GetAlbums (Datastore t)) in
  republish_range albums.

End Core.

(** The record [r] is what the bundle under [Cid r] holds for the album,
    as the earlier revision reads it: the bundle can be pinned recursively,
    meta decodes to the metadata of [r], last decrypts to its back-pointer;
    there is no caption. *)
Definition stored (ext : External) (a : trepo.PhotoAlbum) (r : trepo.PhotoSet) : Prop :=
  let h := trepo.Cid r in
  (exists ip, ParsePath ext h = Ok ip /\ PinAdd ext ip true = None) /\
  (exists b, part ext (h +:+ "/meta") (trepo.Key a) = Some b /\
             json_Unmarshal ext b = Ok (trepo.MetaData r)) /\
  part ext (h +:+ "/last") (trepo.Key a) = Some (trepo.LastCid r) /\
  trepo.Caption r = EmptyString.

Fixpoint linked (ext : External) (a : trepo.PhotoAlbum) (head : string)
    (recs : list trepo.PhotoSet) : Prop :=
  match recs with
  | [] => head = EmptyString
  | r :: recs =>
      head <> EmptyString /\ trepo.Cid r = head /\
      trepo.AlbumID r = trepo.Id a /\ trepo.IsLocal r = false /\
      stored ext a r /\ linked ext a (trepo.LastCid r) recs
  end.

(** The node after a walk that pinned [p] and indexed the chain [recs]. *)
Definition after_walk (recs : list trepo.PhotoSet) (p : list (string * bool))
    (t : TextileNode) : TextileNode :=
  {| Datastore := {| trepo.albums := trepo.albums (Datastore t);
                     trepo.photos := reverse recs ++ trepo.photos (Datastore t);
                     trepo.username := trepo.username (Datastore t) |};
     GatewayPassword := GatewayPassword t;
     pinned := pinned t ++ p;
     published := published t;
     datac := foldl (fun c r => send_or_drop c (trepo.Cid r)) (datac t) recs |}.

(** The small world for the earlier revision. *)
Definition node2 : TextileNode :=
  {| Datastore := {| trepo.albums := [Demo.album1; Demo.album2];
                     trepo.photos := [Demo.local2];
                     trepo.username := Some "alice" |};
     GatewayPassword := "secret";
     pinned := [];
     published := [];
     datac := {| room := 8; delivered := [] |} |}.

End Legacy.

(** ** What a walk leaves behind *)

(** The records follow one another by their back-pointers from [head]. *)
Fixpoint path_from (head : string) (recs : list trepo.PhotoSet) : Prop :=
  match recs with
  | [] => True
  | r :: recs => trepo.Cid r = head /\ path_from (trepo.LastCid r) recs
  end.

(** The update the listener is offered for a record. *)
Definition update_of (a : trepo.PhotoAlbum) (r : trepo.PhotoSet) : ThreadUpdate :=
  {| tu_Cid := trepo.Cid r; tu_Thread := trepo.Name a; tu_ThreadID := trepo.Id a |}.

(** A method that does no more to the node than add pins. *)
Definition pins_only {A : Type} (m : M A) : Prop :=
  forall t, exists p, (m t).1.2 = set_pinned (pinned t ++ p) t.

(** A method that neither reads nor writes the listener channel. *)
(** A method that does the same on two nodes that differ in the update
    channel only: same value, same log, and nodes that again differ in the
    channel only. *)
Definition apart_from_datac {A : Type} (m : M A) : Prop :=
  forall c t, exists c',
    m (set_datac c t) = (let '(a, t', l) := m t in (a, set_datac c' t', l)).

(** ** The gateway's reading of a request *)

(** The content id the gateway handler takes from the path of a request:
    strings.Join(tmp[2:], "/"). *)
Definition ci_of (path : string) : string := Join (drop 2 (Split path "/")) "/".

(** What the handler writes once the password is accepted. *)
Definition served (b : result bytes) : Response :=
  match b with
  | Ok b => {| StatusCode := 200; Header := []; Body := b |}
  | Err _ => {| StatusCode := 400; Header := []; Body := EmptyString |}
  end.

Definition refused : Response :=
  {| StatusCode := 401; Header := []; Body := EmptyString |}.

(** ** Joining a thread

    The methods that check the db connection before they do their work. *)

Module DB.

Section Join.

Variable crypto : Crypto.
Variable NBitsForKeypair : string.

(** t.Datastore.Ping() and db.Create(t.RepoPath, <empty password>): the
    connection test of the datastore at hand and the datastore a re-open
    gives. *)
Variable Ping : trepo.Datastore -> error.
Variable db_Create : result trepo.Datastore.

(** touchDB ensures that we have a good db connection *)
Definition touchDB : M error :=
  let* ds := gets Datastore in
  match Ping ds with
  | Some _ =>
      logf DEBUG "re-opening datastore..." [] ;;
      match db_Create with
      | Err e => logf ERROR "error re-opening datastore: %s" [e] ;; ret (Some e)
      | Ok sqliteDB => modify (set_Datastore sqliteDB) ;; ret None
      end
  | None => ret None
  end.

(** CreateAlbum from its first line: the check of the db, then the body,
    which is [CreateAlbum] of the section on identities. *)
Definition CreateAlbum (mnemonic name : string) : M error :=
  (* check db *)
  let* err := touchDB in
  match err with
  | Some e => ret (Some e)
  | None => CreateAlbum crypto NBitsForKeypair mnemonic name
  end.

Definition JoinThread (mnemonic name : string) : M error :=
  let* err := touchDB in
  match err with
  | Some e => ret (Some e)
  | None =>
      if String.eqb mnemonic EmptyString then
        (* TODO: Return error *)
        ret (Some "mnemonic must not be empty")
      else
        let* ba := gets (fun t => trepo.GetAlbumByName name (Datastore t)) in
        match ba with
        | None =>
            let* err := CreateAlbum mnemonic name in
            match err with
            | Some e =>
                logf ERROR "error creating album %s: %s" [name; e] ;; ret (Some e)
            | None => ret None
            end
        | Some _ =>
            logf DEBUG "updating album: %s" [name] ;;
            RegisterAlbum crypto mnemonic name
        end
  end.

End Join.

End DB.

(** A method that changes nothing of the node but the datastore. *)
Definition datastore_only {A : Type} (m : M A) : Prop :=
  forall t, exists ds, (m t).1.2 = set_Datastore ds t.

(** ** package wallet: peer parameters and directory pins *)

(** strings.LastIndex for a one-byte separator; None stands for -1. *)
Fixpoint LastIndex (s : string) (sep : ascii) : option nat :=
  match s with
  | EmptyString => None
  | String c s' =>
      match LastIndex s' sep with
      | Some i => Some (S i)
      | None => if Ascii.eqb c sep then Some 0 else None
      end
  end.

Module wallet.

(** An ipld link and an ipld node, as far as pinDirectory looks at them. *)
Record Link : Type := { Name : string; Cid : string }.

Record Node : Type := { node_Cid : string; Links : list Link }.

(** The calls that reach the pinner and the dag service, in their order. *)
Inductive call : Type :=
| Pinning_Pin (n : Node)
| GetNode (item : Link)
| Pinning_Flush.

Section Wallet.

(** peer.IDB58Decode and ma.NewMultiaddr *)
Variable IDB58Decode : string -> result string.
Variable NewMultiaddr : string -> result string.

(** parsePeerParam takes a peer address string and returns p2p params; a
    nil multiaddr is None. *)
Definition parsePeerParam (text : string) : result (option string * string) :=
  (* to be replaced with just multiaddr parsing, once ptp is a multiaddr protocol *)
  match LastIndex text "/" with
  | None =>
      match IDB58Decode text with
      | Err e => Err e
      | Ok pid => Ok (None, pid)
      end
  | Some idx =>
      let addrS := String.substring 0 idx text in
      let peeridS := String.substring (idx + 1) (String.length text - (idx + 1)) text in
      (* make sure addrS parses as a multiaddr. *)
      let maddr :=
        if 0 <? String.length addrS then
          match NewMultiaddr addrS with
          | Err e => Err e
          | Ok m => Ok (Some m)
          end
        else Ok None in
      match maddr with
      | Err e => Err e
      | Ok maddr =>
          (* make sure idS parses as a peer.ID *)
          match IDB58Decode peeridS with
          | Err e => Err e
          | Ok pid => Ok (maddr, pid)
          end
      end
  end.

(** ipfs.Pinning.Pin(ctx, node, false), item.GetNode(ctx, ipfs.DAG) and
    ipfs.Pinning.Flush(), by what they return. *)
Variable Pin : Node -> error.
Variable item_GetNode : Link -> result Node.
Variable Flush : error.

(** The loop of pinDirectory over the links that are left, and the Flush
    after it; the calls made are written down. *)
Fixpoint pin_links (links : list Link) (exclude : list string)
    : error * list call :=
  match links with
  | [] => (Flush, [Pinning_Flush])
  | item :: links =>
      if existsb (String.eqb (Name item)) exclude then
        pin_links links exclude                        (* continue outer *)
      else
        match item_GetNode item with
        | Err e => (Some e, [GetNode item])
        | Ok node =>
            let '(err, calls) := pin_links links exclude in
            (err, GetNode item :: Pinning_Pin node :: calls)
        end
  end.

(** pinDirectory pins a directory exluding any provided links *)
Definition pinDirectory (dir : Node) (exclude : list string) : error * list call :=
  match Pin dir with
  | Some e => (Some e, [Pinning_Pin dir])
  | None =>
      let '(err, calls) := pin_links (Links dir) exclude in
      (err, Pinning_Pin dir :: calls)
  end.

End Wallet.

End wallet.

(** ** Local publish in the earlier revision *)

Module LegacyLocal.

Section Core.

Variable ext : External.

(** photos.Add of the earlier revision: no caption. *)
Variable photos_Add :
  PubKey -> bytes -> bytes -> string -> string ->
  result (net.MultipartRequest * photos.Metadata) * list (string * bool).

(** AddPhoto of src/core/core.go: the publish is a call of its own, and its
    error is the error of AddPhoto. *)
Definition AddPhoto (path thumb album : string)
    : Legacy.L (result net.MultipartRequest) :=
  logf INFO "adding photo %s to %s" [path; album] ;;
  (* read file from disk *)
  match os_Open ext path with
  | Err e => logf ERROR "error opening photo: %s" [e] ;; ret (Err e)
  | Ok p =>
  match os_Open ext thumb with
  | Err e => logf ERROR "error opening thumb: %s" [e] ;; ret (Err e)
  | Ok th =>
  (* get album private key *)
  let* a := gets (fun t => trepo.GetAlbumByName album (Legacy.Datastore t)) in
  match a with
  | None =>
      let e := "could not find album: " +:+ album in
      log_Error e ;; ret (Err e)
  | Some a =>
  (* get last photo update which has local true *)
  let* recent := gets (fun t =>
    trepo.GetPhotos EmptyString 1 (trepo.album_is_and_local (trepo.Id a))
      (Legacy.Datastore t)) in
  let lc := match recent with [] => EmptyString | r :: _ => trepo.Cid r end in
  (match recent with
   | [] => ret tt
   | _ :: _ => logf INFO "found last hash: %s" [lc]
   end) ;;
  (* get username *)
  let* un := gets (fun t => trepo.GetUsername (Legacy.Datastore t)) in
  let* un :=
    match un with
    | Err _ => logf ERROR "username not found (not signed in)" [] ;; ret EmptyString
    | Ok un => ret un
    end in
  (* add it *)
  let '(added, pins) := photos_Add (GetPublic ext (trepo.Key a)) p th lc un in
  modify (fun t => Legacy.set_pinned (Legacy.pinned t ++ pins) t) ;;
  match added with
  | Err e => logf ERROR "error adding photo: %s" [e] ;; ret (Err e)
  | Ok (mr, md) =>
  (* index *)
  logf INFO "indexing %s..." [net.Boundary mr] ;;
  let set := {| trepo.Cid := net.Boundary mr; trepo.LastCid := lc;
                trepo.AlbumID := trepo.Id a; trepo.MetaData := md;
                trepo.Caption := EmptyString; trepo.IsLocal := true |} in
  let* err := Legacy.Photos_Put set in
  match err with
  | Some e => logf ERROR "error indexing photo: %s" [e] ;; ret (Err e)
  | None =>
  (* publish *)
  logf INFO "publishing update to %s..." [trepo.Id a] ;;
  match Publish ext (trepo.Id a) (net.Boundary mr) with
  | Some e => logf ERROR "error publishing photo update: %s" [e] ;; ret (Err e)
  | None =>
      modify (fun t =>
        Legacy.set_published
          (Legacy.published t ++ [(trepo.Id a, net.Boundary mr)]) t) ;;
      ret (Ok mr)
  end end end end end end.

End Core.

End LegacyLocal.

(** ** More of the small world *)

Module Demo2.

(** An object store that holds the bundle Qm5, whose back-pointer names
    Qm4, and does not hold Qm4. *)
Definition store : list (string * option bytes) :=
  [ ("/ipfs/Qm5", None);
    ("/ipfs/Qm5/photo", Some "photo5");
    ("/ipfs/Qm5/thumb", Some "thumb5");
    ("/ipfs/Qm5/meta", Some "meta5");
    ("/ipfs/Qm5/last", Some "Qm4") ].

Definition lookup_path (p : string) : option (option bytes) :=
  snd <$> find (fun e => String.eqb (fst e) p) store.

Definition ext : External :=
  {| ParsePath := ParsePath Demo.ext;
     PinAdd := fun ip _ =>
       match lookup_path ip with Some _ => None | None => Some Demo.timeout end;
     Cat := fun ip =>
       match lookup_path ip with
       | Some (Some b) => Ok b
       | Some None => Err "this dag node is a directory"
       | None => Err Demo.timeout
       end;
     Decrypt := Decrypt Demo.ext; json_Unmarshal := json_Unmarshal Demo.ext;
     os_Open := os_Open Demo.ext; GetPublic := GetPublic Demo.ext;
     photos_Add := photos_Add Demo.ext; Publish := Publish Demo.ext;
     ksuid_New := ksuid_New Demo.ext |}.

Definition head : trepo.PhotoSet := Demo.remote "Qm5" "Qm4" EmptyString "meta5".

(** Cryptographic libraries that write down what they were given. *)
Definition crypto : Crypto :=
  {| bip39_NewSeed := fun mnemonic password => "seed(" +:+ mnemonic +:+ ")";
     bip39_NewEntropy := fun bits n => Ok ("entropy-" +:+ pretty n);
     bip39_NewMnemonic := fun e => Ok ("phrase of " +:+ e);
     hmac_sha256 := fun key msg => "hmac(" +:+ key +:+ "," +:+ msg +:+ ")";
     GenerateKeyPairWithReader := fun _ _ reader =>
       Ok ("sk(" +:+ reader +:+ ")", "pk(" +:+ reader +:+ ")");
     PrivKey_Bytes := fun sk => Ok sk;
     UnmarshalPrivateKey := fun kb => Ok kb;
     IDFromPrivateKey := fun sk => Ok ("id(" +:+ sk +:+ ")") |}.



(** A directory with two links, and a dag service that has lost the node
    behind the second. *)
Definition dir : wallet.Node :=
  {| wallet.node_Cid := "QmDir";
     wallet.Links := [ {| wallet.Name := "photo"; wallet.Cid := "QmP" |};
                       {| wallet.Name := "thumb"; wallet.Cid := "QmT" |} ] |}.

Definition item_GetNode (item : wallet.Link) : result wallet.Node :=
  if String.eqb (wallet.Name item) "thumb" then Err "merkledag: not found"
  else Ok {| wallet.node_Cid := wallet.Cid item; wallet.Links := [] |}.


End Demo2.


(** * Properties *)

(** ** The monad *)

Lemma bind_run {S A B : Type} (m : MS S A) (k : A -> MS S B) t a t1 l1 :
  m t = (a, t1, l1) ->
  bind m k t = (let '(b, t2, l2) := k a t1 in (b, t2, l1 ++ l2)).
Proof. intros H. unfold bind. rewrite H. reflexivity. Qed.

Ltac unfold_monad := unfold bind, ret, gets, modify, logf, log_Error in *.

(** ** strings.Split *)

Lemma Split_cons (s : string) (sep : ascii) : exists x xs, Split s sep = x :: xs.
Proof.
  destruct s as [|c s]; simpl; [eauto|].
  destruct (Ascii.eqb c sep); [eauto|].
  destruct (Split s sep); eauto.
Qed.

(** A string without the separator is split into itself. *)
Lemma Split_no_sep (s : string) (sep : ascii) :
  length (Split s sep) = 1 -> Split s sep = [s].
Proof.
  induction s as [|c s IH]; simpl; [reflexivity|].
  destruct (Ascii.eqb c sep).
  - destruct (Split_cons s sep) as (x & xs & ->). simpl. discriminate.
  - destruct (Split_cons s sep) as (x & xs & E). rewrite E in *.
    simpl. intros Hlen. specialize (IH Hlen).
    injection IH as -> ->. reflexivity.
Qed.

Lemma Split_relay (s : string) : Split ("relay:" +:+ s) ":" = "relay" :: Split s ":".
Proof. reflexivity. Qed.

(** ** The datastore *)

Lemma GetAlbum_Id aid ds a : trepo.GetAlbum aid ds = Some a -> trepo.Id a = aid.
Proof.
  unfold trepo.GetAlbum. intros H. apply find_some in H as [_ H].
  by apply String.eqb_eq.
Qed.

Lemma PutPhoto_fresh set ds :
  trepo.GetPhoto (trepo.Cid set) ds = None ->
  trepo.PutPhoto set ds =
    (None, {| trepo.albums := trepo.albums ds; trepo.photos := set :: trepo.photos ds;
              trepo.username := trepo.username ds |}).
Proof. intros H. unfold trepo.PutPhoto. by rewrite H. Qed.

Lemma set_Datastore_id t : set_Datastore (Datastore t) t = t.
Proof. by destruct t. Qed.

Section CoreFacts.

Variable ext : External.

(** ** handleHash and the album registry *)

(** C10: for every hash, the empty genesis pointer included, handleHash
    returns the error "could not find album with id: <aid>" when the
    thread id is not in the album registry; the look-up of the album comes
    before the genesis check, and the node is left as it was. *)
Theorem handleHash_unknown_album (fuel : nat) (hash aid : string) (t : TextileNode) :
  trepo.GetAlbum aid (Datastore t) = None ->
  handleHash ext (S fuel) hash aid t =
    (Returns (Some ("could not find album with id: " +:+ aid)), t, []).
Proof.
  intros H. simpl. unfold hop_check. unfold_monad. rewrite H. reflexivity.
Qed.

(** ** handleRoomUpdate *)

(** The first statement of handleRoomUpdate: a message of the node's own
    is dropped. *)
Lemma handleRoomUpdate_own (fuel : nat) (msg : Message) (aid : string)
    (t : TextileNode) :
  String.eqb (GetFrom msg) (Identity t) = true ->
  handleRoomUpdate ext fuel msg aid t = (Returns None, t, []).
Proof.
  intros H. unfold handleRoomUpdate. unfold_monad. rewrite H. reflexivity.
Qed.

(** C6: an announcement whose author is the local identity is discarded:
    handleRoomUpdate returns nil, the node is unchanged (nothing pinned,
    indexed or sent to the listener) and nothing is logged. *)
Theorem handleRoomUpdate_self (fuel : nat) (msg : Message) (aid : string)
    (t : TextileNode) :
  GetFrom msg = Identity t ->
  handleRoomUpdate ext fuel msg aid t = (Returns None, t, []).
Proof.
  intros H. apply handleRoomUpdate_own. rewrite H. apply String.eqb_refl.
Qed.

(** The hash and the label handleRoomUpdate takes from a payload. *)
Lemma handleRoomUpdate_other (fuel : nat) (msg : Message) (aid : string)
    (t : TextileNode) :
  GetFrom msg <> Identity t ->
  let tmp := Split (GetData msg) ":" in
  let relayed := (1 <? length tmp) && String.eqb (nth 0 tmp EmptyString) "relay" in
  let hash := if relayed then nth 1 tmp EmptyString else nth 0 tmp EmptyString in
  let from := if relayed then "relay:" +:+ GetFrom msg else GetFrom msg in
  handleRoomUpdate ext fuel msg aid t =
    (let '(o, t', l) := handleHash ext fuel hash aid t in
     (o, t', Log DEBUG "got update from %s in room %s" [from; aid] :: l)).
Proof.
  intros H. unfold handleRoomUpdate. unfold_monad.
  apply String.eqb_neq in H. rewrite H. simpl.
  destruct ((1 <? length (Split (GetData msg) ":")) &&
            String.eqb (nth 0 (Split (GetData msg) ":") EmptyString) "relay");
    simpl; destruct (handleHash ext fuel _ aid t) as [[o t'] l]; reflexivity.
Qed.

End CoreFacts.

(** ** One hop of the chain walk *)

Section HopFacts.

Variable ext : External.

Lemma pinPath_pinnable (path : string) (t : TextileNode) :
  pinnable ext path = true ->
  exists ip, pinPath ext path false t =
               (None, set_pinned (pinned t ++ [(ip, false)]) t, []).
Proof.
  unfold pinnable, pinPath. destruct (ParsePath ext path) as [ip|e]; [|discriminate].
  destruct (PinAdd ext ip false); [discriminate|]. intros _. exists ip. reflexivity.
Qed.

(** pinPath changes nothing but the pin set, which it extends. *)
Lemma pinPath_frame (path : string) (recursive : bool) (t : TextileNode) :
  exists e p l, pinPath ext path recursive t = (e, set_pinned (pinned t ++ p) t, l).
Proof.
  unfold pinPath. destruct (ParsePath ext path) as [ip|e].
  - destruct (PinAdd ext ip recursive) as [e|].
    + exists (Some e), [], []. unfold_monad. rewrite app_nil_r. by destruct t.
    + exists None, [(ip, recursive)], []. reflexivity.
  - eexists (Some e), [], _. unfold_monad. simpl. rewrite app_nil_r. by destruct t.
Qed.

(** GetFile leaves the node as it is. *)
Lemma GetFile_node (path : string) (album : option trepo.PhotoAlbum) (t : TextileNode) :
  (GetFile ext path album t).1.2 = t.
Proof.
  unfold GetFile. unfold_monad. simpl.
  repeat (case_match; simpl in *; simplify_eq); reflexivity.
Qed.

Lemma GetFile_part (path : string) (a : trepo.PhotoAlbum) (t : TextileNode) (b : bytes) :
  Online t = true ->
  part ext path (trepo.Key a) = Some b ->
  GetFile ext path (Some a) t = (Ok b, t, []).
Proof.
  intros Hon. unfold part, GetFile, getDataAtPath. unfold_monad. rewrite Hon. simpl.
  destruct (ParsePath ext path) as [ip|e]; [|discriminate].
  destruct (Cat ext ip) as [cb|e]; [|discriminate].
  destruct (length (Split ip "/") <? 3); [discriminate|].
  destruct (Decrypt ext (trepo.Key a) cb); [|discriminate].
  by intros [= ->].
Qed.

Lemma GetFile_no_part (path : string) (a : trepo.PhotoAlbum) (t : TextileNode) :
  part ext path (trepo.Key a) = None ->
  exists e l, GetFile ext path (Some a) t = (Err e, t, l).
Proof.
  unfold part, GetFile, getDataAtPath. unfold_monad.
  destruct (Online t); simpl; [|eauto].
  destruct (ParsePath ext path) as [ip|e]; [|eauto].
  destruct (Cat ext ip) as [cb|e]; [|eauto].
  destruct (length (Split ip "/") <? 3); [eauto|].
  destruct (Decrypt ext (trepo.Key a) cb); [discriminate|eauto].
Qed.

Lemma GetMetaData_part hash a t b md :
  Online t = true ->
  part ext (hash +:+ "/meta") (trepo.Key a) = Some b ->
  json_Unmarshal ext b = Ok md ->
  GetMetaData ext hash (Some a) t = (Ok md, t, []).
Proof.
  intros Hon Hp Hj. unfold GetMetaData.
  rewrite (bind_run _ _ t true t []) by (unfold gets; by rewrite Hon). simpl.
  rewrite (bind_run _ _ t (Ok b) t []) by (by apply GetFile_part).
  rewrite Hj. reflexivity.
Qed.

Lemma GetMetaData_no_part hash a t :
  part ext (hash +:+ "/meta") (trepo.Key a) = None ->
  exists e l, GetMetaData ext hash (Some a) t = (Err e, t, l).
Proof.
  intros Hp. unfold GetMetaData.
  rewrite (bind_run _ _ t (Online t) t []) by reflexivity.
  destruct (Online t); simpl; [|eauto].
  destruct (GetFile_no_part _ a t Hp) as (e & l & HG).
  rewrite (bind_run _ _ t (Err e) t l) by exact HG.
  unfold_monad. simpl. eauto.
Qed.

Lemma GetMetaData_bad_json hash a t b e :
  Online t = true ->
  part ext (hash +:+ "/meta") (trepo.Key a) = Some b ->
  json_Unmarshal ext b = Err e ->
  exists l, GetMetaData ext hash (Some a) t = (Err e, t, l).
Proof.
  intros Hon Hp Hj. unfold GetMetaData.
  rewrite (bind_run _ _ t true t []) by (unfold gets; by rewrite Hon). simpl.
  rewrite (bind_run _ _ t (Ok b) t []) by (by apply GetFile_part).
  rewrite Hj. unfold_monad. simpl. eauto.
Qed.

Lemma GetLastHash_part hash a t last :
  Online t = true ->
  part ext (hash +:+ "/last") (trepo.Key a) = Some last ->
  GetLastHash ext hash (Some a) t = (Ok last, t, []).
Proof.
  intros Hon Hp. unfold GetLastHash.
  rewrite (bind_run _ _ t true t []) by (unfold gets; by rewrite Hon). simpl.
  rewrite (bind_run _ _ t (Ok last) t []) by (by apply GetFile_part).
  reflexivity.
Qed.

Lemma GetLastHash_no_part hash a t :
  part ext (hash +:+ "/last") (trepo.Key a) = None ->
  exists e l, GetLastHash ext hash (Some a) t = (Err e, t, l).
Proof.
  intros Hp. unfold GetLastHash.
  rewrite (bind_run _ _ t (Online t) t []) by reflexivity.
  destruct (Online t); simpl; [|eauto].
  destruct (GetFile_no_part _ a t Hp) as (e & l & HG).
  rewrite (bind_run _ _ t (Err e) t l) by exact HG.
  unfold_monad. simpl. eauto.
Qed.

(** The caption handleHash ends up with is the one of the bundle, or the
    empty string when GetCaption fails. *)
Lemma GetCaption_default hash a t :
  Online t = true ->
  exists r l, GetCaption ext hash (Some a) t = (r, t, l) /\
    match r with Err _ => EmptyString | Ok c => c end =
      default EmptyString (part ext (hash +:+ "/caption") (trepo.Key a)).
Proof.
  intros Hon. unfold GetCaption.
  rewrite (bind_run _ _ t true t []) by (unfold gets; by rewrite Hon). simpl.
  destruct (part ext (hash +:+ "/caption") (trepo.Key a)) as [c|] eqn:Hp.
  - rewrite (bind_run _ _ t (Ok c) t []) by (by apply GetFile_part).
    exists (Ok c), []. split; reflexivity.
  - destruct (GetFile_no_part _ a t Hp) as (e & l & HG).
    rewrite (bind_run _ _ t (Err e) t l) by exact HG.
    unfold_monad. simpl. eexists (Err e), _. split; reflexivity.
Qed.

End HopFacts.

Section HopSteps.

Variable ext : External.

Lemma bind_eq {S A B : Type} (m : MS S A) (k : A -> MS S B) t a t1 l1 b t2 l2 :
  m t = (a, t1, l1) -> k a t1 = (b, t2, l2) -> bind m k t = (b, t2, l1 ++ l2).
Proof. intros Hm Hk. unfold bind. by rewrite Hm, Hk. Qed.

Lemma set_pinned_app (x y : list (string * bool)) (t : TextileNode) :
  set_pinned (pinned (set_pinned (pinned t ++ x) t) ++ y) (set_pinned (pinned t ++ x) t)
  = set_pinned (pinned t ++ (x ++ y)) t.
Proof. unfold set_pinned. simpl. by rewrite app_assoc. Qed.

Lemma hop_check_proceed (hash aid : string) (a : trepo.PhotoAlbum) (t : TextileNode) :
  trepo.GetAlbum aid (Datastore t) = Some a ->
  hash <> EmptyString ->
  trepo.GetPhoto hash (Datastore t) = None ->
  hop_check hash aid t = (Proceed a, t, [Log DEBUG "handling update: %s..." [hash]]).
Proof.
  intros Ha Hh Hp. unfold hop_check. unfold_monad. rewrite Ha.
  apply String.eqb_neq in Hh. rewrite Hh. simpl. rewrite Hp. reflexivity.
Qed.

(** A hash that is in the index already stops the walk with nil. *)
Lemma hop_check_indexed (hash aid : string) (a : trepo.PhotoAlbum) (p : trepo.PhotoSet)
    (t : TextileNode) :
  trepo.GetAlbum aid (Datastore t) = Some a ->
  hash <> EmptyString ->
  trepo.GetPhoto hash (Datastore t) = Some p ->
  hop_check hash aid t =
    (Return None, t, [Log DEBUG "handling update: %s..." [hash];
                      Log DEBUG "update %s exists, aborting" [hash]]).
Proof.
  intros Ha Hh Hp. unfold hop_check. unfold_monad. rewrite Ha.
  apply String.eqb_neq in Hh. rewrite Hh. simpl. rewrite Hp. reflexivity.
Qed.

(** The four pins every hop needs. *)
Lemma four_pins (h : string) (t : TextileNode) :
  pinnable ext h = true -> pinnable ext (h +:+ "/thumb") = true ->
  pinnable ext (h +:+ "/meta") = true -> pinnable ext (h +:+ "/last") = true ->
  exists i1 i2 i3 i4,
    let t1 := set_pinned (pinned t ++ [(i1, false)]) t in
    let t2 := set_pinned (pinned t ++ [(i1, false); (i2, false)]) t in
    let t3 := set_pinned (pinned t ++ [(i1, false); (i2, false); (i3, false)]) t in
    let t4 := set_pinned
                (pinned t ++ [(i1, false); (i2, false); (i3, false); (i4, false)]) t in
    pinPath ext h false t = (None, t1, []) /\
    pinPath ext (h +:+ "/thumb") false t1 = (None, t2, []) /\
    pinPath ext (h +:+ "/meta") false t2 = (None, t3, []) /\
    pinPath ext (h +:+ "/last") false t3 = (None, t4, []).
Proof.
  intros H1 H2 H3 H4.
  destruct (pinPath_pinnable ext _ t H1) as [i1 E1].
  destruct (pinPath_pinnable ext _ (set_pinned (pinned t ++ [(i1, false)]) t) H2)
    as [i2 E2].
  rewrite set_pinned_app in E2.
  destruct (pinPath_pinnable ext _
    (set_pinned (pinned t ++ [(i1, false); (i2, false)]) t) H3) as [i3 E3].
  rewrite set_pinned_app in E3.
  destruct (pinPath_pinnable ext _
    (set_pinned (pinned t ++ [(i1, false); (i2, false); (i3, false)]) t) H4) as [i4 E4].
  rewrite set_pinned_app in E4.
  exists i1, i2, i3, i4. simpl. auto.
Qed.

Lemma hop_fetch_stored (a : trepo.PhotoAlbum) (r : trepo.PhotoSet) (t : TextileNode) :
  Online t = true ->
  stored ext a r ->
  exists p l,
    hop_fetch ext (trepo.Cid r) a t =
      (Proceed (trepo.MetaData r, trepo.LastCid r, trepo.Caption r),
       set_pinned (pinned t ++ p) t, l).
Proof.
  intros Hon (H1 & H2 & H3 & H4 & (b & Hb & Hj) & Hl & Hc).
  destruct (four_pins _ t H1 H2 H3 H4) as (i1 & i2 & i3 & i4 & E1 & E2 & E3 & E4).
  destruct (pinPath_frame ext (trepo.Cid r +:+ "/caption") false
    (set_pinned (pinned t ++ [(i1, false); (i2, false); (i3, false); (i4, false)]) t))
    as (e5 & p5 & l5 & E5).
  rewrite set_pinned_app in E5.
  pose (t5 := set_pinned
    (pinned t ++ [(i1, false); (i2, false); (i3, false); (i4, false)] ++ p5) t).
  assert (Hon5 : Online t5 = true) by exact Hon.
  destruct (GetCaption_default ext (trepo.Cid r) a t5 Hon5) as (rc & lc & Ec & Hrc).
  exists ([(i1, false); (i2, false); (i3, false); (i4, false)] ++ p5). eexists.
  unfold hop_fetch.
  eapply bind_eq; [reflexivity|]. eapply bind_eq; [exact E1|]. cbv beta iota.
  eapply bind_eq; [reflexivity|]. eapply bind_eq; [exact E2|]. cbv beta iota.
  eapply bind_eq; [reflexivity|]. eapply bind_eq; [exact E3|]. cbv beta iota.
  eapply bind_eq; [reflexivity|]. eapply bind_eq; [exact E4|]. cbv beta iota.
  eapply bind_eq; [reflexivity|]. eapply bind_eq; [exact E5|].
  eapply bind_eq; [reflexivity|].
  eapply bind_eq; [by eapply GetMetaData_part|]. cbv beta iota.
  eapply bind_eq; [by eapply GetLastHash_part|]. cbv beta iota.
  eapply bind_eq; [exact Ec|].
  rewrite Hrc, <- Hc. reflexivity.
Qed.

Lemma hop_index_fresh (aid : string) (a : trepo.PhotoAlbum) (r : trepo.PhotoSet)
    (t : TextileNode) :
  trepo.GetPhoto (trepo.Cid r) (Datastore t) = None ->
  trepo.AlbumID r = aid -> trepo.IsLocal r = false ->
  hop_index (trepo.Cid r) aid a (trepo.MetaData r) (trepo.LastCid r) (trepo.Caption r) t =
    (Proceed (trepo.LastCid r),
     set_datac
       (send_or_drop (datac t)
          {| tu_Cid := trepo.Cid r; tu_Thread := trepo.Name a;
             tu_ThreadID := trepo.Id a |})
       (set_Datastore
          {| trepo.albums := trepo.albums (Datastore t);
             trepo.photos := r :: trepo.photos (Datastore t);
             trepo.username := trepo.username (Datastore t) |} t),
     [Log DEBUG "indexing %s..." [trepo.Cid r]]).
Proof.
  intros Hp Ha Hl. unfold hop_index, Photos_Put. unfold_monad.
  rewrite PutPhoto_fresh by exact Hp. simpl.
  destruct r; simpl in *; subst. reflexivity.
Qed.

(** A hop over a bundle that is in the store and not in the index: the
    record is indexed, the listener is told, and the walk goes on from the
    back-pointer. *)
Lemma handleHash_hop (fuel : nat) (aid : string) (a : trepo.PhotoAlbum)
    (r : trepo.PhotoSet) (t : TextileNode) :
  Online t = true ->
  trepo.GetAlbum aid (Datastore t) = Some a ->
  trepo.Cid r <> EmptyString ->
  trepo.GetPhoto (trepo.Cid r) (Datastore t) = None ->
  trepo.AlbumID r = aid -> trepo.IsLocal r = false ->
  stored ext a r ->
  exists p l,
    handleHash ext (S fuel) (trepo.Cid r) aid t =
      (let '(o, t', l') := handleHash ext fuel (trepo.LastCid r) aid (after_hop a r p t) in
       (o, t', l ++ l')).
Proof.
  intros Hon Ha Hne Hp Hid Hloc Hst.
  destruct (hop_fetch_stored a r t Hon Hst) as (p & l2 & E2).
  exists p. eexists ([_] ++ l2 ++ [_]).
  change (handleHash ext (S fuel) (trepo.Cid r) aid) with
    (let* c := hop_check (trepo.Cid r) aid in
     match c with
     | Return e => ret (Returns e)
     | Proceed a =>
         let* f := hop_fetch ext (trepo.Cid r) a in
         match f with
         | Return e => ret (Returns e)
         | Proceed (md, last, caption) =>
             let* i := hop_index (trepo.Cid r) aid a md last caption in
             match i with
             | Return e => ret (Returns e)
             | Proceed last => handleHash ext fuel last aid
             end
         end
     end).
  rewrite (bind_run _ _ _ _ _ _ (hop_check_proceed _ _ _ _ Ha Hne Hp)).
  rewrite (bind_run _ _ _ _ _ _ E2).
  rewrite (bind_run _ _ _ _ _ _
    (hop_index_fresh aid a r (set_pinned (pinned t ++ p) t) Hp Hid Hloc)).
  unfold after_hop.
  destruct (handleHash ext fuel (trepo.LastCid r) aid _) as [[o t'] l'].
  by rewrite <- !app_assoc.
Qed.

(** A hop whose metadata or back-pointer cannot be had returns the error
    having done no more than pin. *)
Lemma handleHash_abort (fuel : nat) (hash aid : string) (a : trepo.PhotoAlbum)
    (t : TextileNode) :
  Online t = true ->
  trepo.GetAlbum aid (Datastore t) = Some a ->
  hash <> EmptyString ->
  trepo.GetPhoto hash (Datastore t) = None ->
  pinnable ext hash = true -> pinnable ext (hash +:+ "/thumb") = true ->
  pinnable ext (hash +:+ "/meta") = true -> pinnable ext (hash +:+ "/last") = true ->
  (part ext (hash +:+ "/meta") (trepo.Key a) = None \/
   (exists b e, part ext (hash +:+ "/meta") (trepo.Key a) = Some b /\
                json_Unmarshal ext b = Err e) \/
   (exists b md, part ext (hash +:+ "/meta") (trepo.Key a) = Some b /\
                 json_Unmarshal ext b = Ok md /\
                 part ext (hash +:+ "/last") (trepo.Key a) = None)) ->
  exists e p l,
    handleHash ext (S fuel) hash aid t = (Returns (Some e), set_pinned (pinned t ++ p) t, l).
Proof.
  intros Hon Ha Hne Hp H1 H2 H3 H4 Hfail.
  destruct (four_pins _ t H1 H2 H3 H4) as (i1 & i2 & i3 & i4 & E1 & E2 & E3 & E4).
  destruct (pinPath_frame ext (hash +:+ "/caption") false
    (set_pinned (pinned t ++ [(i1, false); (i2, false); (i3, false); (i4, false)]) t))
    as (e5 & p5 & l5 & E5).
  rewrite set_pinned_app in E5.
  pose (t5 := set_pinned
    (pinned t ++ [(i1, false); (i2, false); (i3, false); (i4, false)] ++ p5) t).
  assert (Hon5 : Online t5 = true) by exact Hon.
  assert (exists e l, hop_fetch ext hash a t = (Return (Some e), t5, l)) as (e & l & E).
  { assert (exists e l,
        GetMetaData ext hash (Some a) t5 = (Err e, t5, l) \/
        exists md, GetMetaData ext hash (Some a) t5 = (Ok md, t5, []) /\
                   GetLastHash ext hash (Some a) t5 = (Err e, t5, l))
      as (e & l & Hcase).
    { destruct Hfail as [Hm|[(b & e & Hb & Hj)|(b & md & Hb & Hj & Hl)]].
      - destruct (GetMetaData_no_part ext hash a t5 Hm) as (e & l & E). eauto.
      - destruct (GetMetaData_bad_json ext hash a t5 b e Hon5 Hb Hj) as (l & E). eauto.
      - destruct (GetLastHash_no_part ext hash a t5 Hl) as (e & l & E).
        exists e, l. right. exists md. split; [by eapply GetMetaData_part|done]. }
    destruct Hcase as [Hm|(md & Hm & Hl)].
    - exists e. eexists. unfold hop_fetch.
      eapply bind_eq; [reflexivity|]. eapply bind_eq; [exact E1|]. cbv beta iota.
      eapply bind_eq; [reflexivity|]. eapply bind_eq; [exact E2|]. cbv beta iota.
      eapply bind_eq; [reflexivity|]. eapply bind_eq; [exact E3|]. cbv beta iota.
      eapply bind_eq; [reflexivity|]. eapply bind_eq; [exact E4|]. cbv beta iota.
      eapply bind_eq; [reflexivity|]. eapply bind_eq; [exact E5|].
      eapply bind_eq; [reflexivity|].
      eapply bind_eq; [exact Hm|]. reflexivity.
    - exists e. eexists. unfold hop_fetch.
      eapply bind_eq; [reflexivity|]. eapply bind_eq; [exact E1|]. cbv beta iota.
      eapply bind_eq; [reflexivity|]. eapply bind_eq; [exact E2|]. cbv beta iota.
      eapply bind_eq; [reflexivity|]. eapply bind_eq; [exact E3|]. cbv beta iota.
      eapply bind_eq; [reflexivity|]. eapply bind_eq; [exact E4|]. cbv beta iota.
      eapply bind_eq; [reflexivity|]. eapply bind_eq; [exact E5|].
      eapply bind_eq; [reflexivity|].
      eapply bind_eq; [exact Hm|]. cbv beta iota.
      eapply bind_eq; [exact Hl|]. reflexivity. }
  exists e. eexists. eexists. simpl.
  eapply bind_eq; [exact (hop_check_proceed _ _ _ _ Ha Hne Hp)|]. cbv beta iota.
  eapply bind_eq; [exact E|]. reflexivity.
Qed.

End HopSteps.

(** ** Chains *)

Section ChainFacts.

Variable ext : External.
Variable a : trepo.PhotoAlbum.

Lemma stored_functional (r1 r2 : trepo.PhotoSet) :
  trepo.Cid r1 = trepo.Cid r2 -> stored ext a r1 -> stored ext a r2 ->
  trepo.MetaData r1 = trepo.MetaData r2 /\ trepo.LastCid r1 = trepo.LastCid r2 /\
  trepo.Caption r1 = trepo.Caption r2.
Proof.
  intros Hc (_ & _ & _ & _ & (b1 & Hb1 & Hj1) & Hl1 & Hc1)
            (_ & _ & _ & _ & (b2 & Hb2 & Hj2) & Hl2 & Hc2).
  rewrite Hc in *. repeat split; congruence.
Qed.

(** The store decides the chain that hangs from a head. *)
Lemma linked_functional (recs1 recs2 : list trepo.PhotoSet) (head : string) :
  linked ext a head recs1 -> linked ext a head recs2 -> recs1 = recs2.
Proof.
  revert recs2 head.
  induction recs1 as [|r1 recs1 IH]; intros [|r2 recs2] head; simpl.
  - reflexivity.
  - intros -> (Hne & _). by destruct Hne.
  - intros (Hne & _) ->. by destruct Hne.
  - intros (_ & Hc1 & Ha1 & Hl1 & Hs1 & Hk1) (_ & Hc2 & Ha2 & Hl2 & Hs2 & Hk2).
    destruct (stored_functional r1 r2) as (Hm & Hl & Hcap); [congruence|done|done|].
    assert (r1 = r2) as -> by (destruct r1, r2; simpl in *; congruence).
    f_equal. by eapply IH.
Qed.

Lemma linked_suffix (l1 l2 : list trepo.PhotoSet) (head : string) :
  linked ext a head (l1 ++ l2) -> exists h, linked ext a h l2.
Proof.
  revert head. induction l1 as [|r l1 IH]; intros head; simpl; [eauto|].
  intros (_ & _ & _ & _ & _ & Hk). eauto.
Qed.

(** A chain that ends in the genesis pointer names no content id twice. *)
Lemma linked_NoDup (recs : list trepo.PhotoSet) (head : string) :
  linked ext a head recs -> NoDup (trepo.Cid <$> recs).
Proof.
  revert head. induction recs as [|r recs IH]; intros head Hl; [constructor|].
  rewrite fmap_cons. constructor.
  - intros (r' & Hc & Hin)%list_elem_of_fmap.
    apply list_elem_of_split in Hin as (l1 & l2 & ->).
    pose proof Hl as (_ & Hhead & _ & _ & _ & Hk).
    destruct (linked_suffix _ _ _ Hk) as [h Hs].
    assert (h = head) as -> by (destruct Hs as (_ & <- & _); congruence).
    pose proof (linked_functional _ _ _ Hl Hs) as Heq.
    apply (f_equal length) in Heq. simpl in Heq. rewrite length_app in Heq.
    simpl in Heq. lia.
  - destruct Hl as (_ & _ & _ & _ & _ & Hk). by eapply IH.
Qed.

End ChainFacts.

Section ChainWalk.

Variable ext : External.

(** A call that returned keeps its result when it is allowed more nested
    calls. *)
Lemma handleHash_more_fuel (fuel fuel' : nat) (hash aid : string) (t t' : TextileNode)
    (e : error) (l : list logline) :
  handleHash ext fuel hash aid t = (Returns e, t', l) ->
  fuel <= fuel' ->
  handleHash ext fuel' hash aid t = (Returns e, t', l).
Proof.
  revert fuel' hash t t' l.
  induction fuel as [|fuel IH]; intros fuel' hash t t' l; [discriminate|].
  intros H Hle. destruct fuel' as [|fuel']; [lia|].
  simpl in *. unfold bind in *.
  destruct (hop_check hash aid t) as [[[e1|a] t1] l1]; [exact H|].
  destruct (hop_fetch ext hash a t1) as [[[e2|[[md last] cap]] t2] l2]; [exact H|].
  destruct (hop_index hash aid a md last cap t2) as [[[e3|last'] t3] l3]; [exact H|].
  destruct (handleHash ext fuel last' aid t3) as [[o t4] l4] eqn:E.
  destruct o as [e4|]; [|discriminate].
  assert (e4 = e) as -> by congruence.
  rewrite (IH fuel' last' t3 t4 l4 E) by lia. exact H.
Qed.

Lemma handleHash_genesis (fuel : nat) (aid : string) (a : trepo.PhotoAlbum)
    (t : TextileNode) :
  trepo.GetAlbum aid (Datastore t) = Some a ->
  handleHash ext (S fuel) EmptyString aid t =
    (Returns None, t, [Log DEBUG "found genesis update, aborting" []]).
Proof. intros Ha. simpl. unfold hop_check. unfold_monad. by rewrite Ha. Qed.

Lemma after_walk_nil (a : trepo.PhotoAlbum) (t : TextileNode) : after_walk a [] [] t = t.
Proof.
  unfold after_walk. simpl. rewrite app_nil_r.
  destruct t as [[] ? ? ? ? ? ? ? ?]. reflexivity.
Qed.

Lemma after_walk_cons (a : trepo.PhotoAlbum) (r : trepo.PhotoSet)
    (recs : list trepo.PhotoSet) (p p' : list (string * bool)) (t : TextileNode) :
  after_walk a recs p' (after_hop a r p t) = after_walk a (r :: recs) (p ++ p') t.
Proof.
  unfold after_walk, after_hop, set_datac, set_Datastore, set_pinned. simpl.
  by rewrite reverse_cons, <- !app_assoc.
Qed.

Lemma GetPhoto_after_hop (a : trepo.PhotoAlbum) (r : trepo.PhotoSet)
    (p : list (string * bool)) (t : TextileNode) (cid : string) :
  cid <> trepo.Cid r ->
  trepo.GetPhoto cid (Datastore (after_hop a r p t)) = trepo.GetPhoto cid (Datastore t).
Proof.
  intros Hne. unfold trepo.GetPhoto. simpl.
  assert (String.eqb (trepo.Cid r) cid = false) as ->; [|done].
  apply String.eqb_neq. congruence.
Qed.

(** The walk over the records that are not indexed yet stops at the first
    that is, or at the genesis pointer. *)
Lemma walk_chain (aid : string) (a : trepo.PhotoAlbum)
    (missed known : list trepo.PhotoSet) :
  forall (head : string) (t : TextileNode),
  Online t = true ->
  trepo.GetAlbum aid (Datastore t) = Some a ->
  linked ext a head (missed ++ known) ->
  NoDup (trepo.Cid <$> missed ++ known) ->
  (forall r, r ∈ missed -> trepo.GetPhoto (trepo.Cid r) (Datastore t) = None) ->
  (forall r, r ∈ known -> trepo.GetPhoto (trepo.Cid r) (Datastore t) = Some r) ->
  exists p l,
    handleHash ext (S (length missed)) head aid t =
      (Returns None, after_walk a missed p t, l).
Proof.
  induction missed as [|r missed IH]; intros head t Hon Ha Hl Hnd Hfresh Hknown.
  - exists []. rewrite after_walk_nil. simpl in Hl.
    destruct known as [|k known].
    + simpl in Hl. subst head. eexists. by eapply handleHash_genesis.
    + destruct Hl as (Hne & Hc & _). subst head. eexists. simpl.
      rewrite (bind_run _ _ _ _ _ _
        (hop_check_indexed _ _ _ _ _ Ha Hne (Hknown k ltac:(left)))).
      reflexivity.
  - destruct Hl as (Hne & Hc & Hid & Hloc & Hst & Hk). subst head.
    simpl in Hnd. apply NoDup_cons in Hnd as [Hnotin Hnd].
    destruct (handleHash_hop ext (S (length missed)) aid a r t) as (p & l & E);
      [done|done|done|apply Hfresh; left|
       by rewrite Hid; eapply GetAlbum_Id|done|done|].
    destruct (IH (trepo.LastCid r) (after_hop a r p t)) as (p' & l' & E');
      [done|done|done|done| | |].
    { intros r' Hin. rewrite GetPhoto_after_hop.
      - apply Hfresh. by right.
      - intros Heq. apply Hnotin. rewrite <- Heq. apply list_elem_of_fmap_2.
        apply elem_of_app. by left. }
    { intros k Hin. rewrite GetPhoto_after_hop.
      - by apply Hknown.
      - intros Heq. apply Hnotin. rewrite <- Heq. apply list_elem_of_fmap_2.
        apply elem_of_app. by right. }
    exists (p ++ p'), (l ++ l').
    change (length (r :: missed)) with (S (length missed)).
    rewrite E, E', after_walk_cons. reflexivity.
Qed.

End ChainWalk.

Section ChainTheorems.

Variable ext : External.

Lemma GetPhoto_in_index (recs older : list trepo.PhotoSet) (r : trepo.PhotoSet)
    (ds : trepo.Datastore) :
  NoDup (trepo.Cid <$> recs) -> r ∈ recs ->
  trepo.photos ds = recs ++ older ->
  trepo.GetPhoto (trepo.Cid r) ds = Some r.
Proof.
  unfold trepo.GetPhoto. intros Hnd Hin ->. clear ds.
  induction recs as [|x recs IH]; [by apply elem_of_nil in Hin|].
  rewrite fmap_cons in Hnd. apply NoDup_cons in Hnd as [Hx Hnd]. simpl.
  apply elem_of_cons in Hin as [->|Hin].
  - by rewrite String.eqb_refl.
  - assert (String.eqb (trepo.Cid x) (trepo.Cid r) = false) as ->; [|by apply IH].
    apply String.eqb_neq. intros Heq. apply Hx. rewrite Heq.
    by apply list_elem_of_fmap_2.
Qed.

Lemma GetPhoto_below (newer : list trepo.PhotoSet) (cid : string)
    (ds ds' : trepo.Datastore) :
  cid ∉ trepo.Cid <$> newer ->
  trepo.photos ds' = newer ++ trepo.photos ds ->
  trepo.GetPhoto cid ds' = trepo.GetPhoto cid ds.
Proof.
  unfold trepo.GetPhoto. intros Hnot ->.
  induction newer as [|x newer IH]; [done|]. rewrite fmap_cons in Hnot.
  apply not_elem_of_cons in Hnot as [Hx Hnot]. simpl.
  assert (String.eqb (trepo.Cid x) cid = false) as ->; [|by apply IH].
  apply String.eqb_neq. congruence.
Qed.

(** C2: for a chain of N linked records in the object store that ends in the
    genesis pointer, on a node that has indexed the older records of the
    chain, possibly none, and not the newer ones, handling the head id alone
    terminates (any allowance of more nested calls than there are missed
    records is enough) and returns nil; afterwards the index holds all N
    records, the missed ones with the metadata, back-pointer and caption
    decrypted from the store, on top of what it held, and every missed
    record was offered to the listener.  The same holds for the
    announcement of the head id by another peer. *)
Theorem handleHash_backfills_chain (aid head : string) (a : trepo.PhotoAlbum)
    (missed known : list trepo.PhotoSet) (t : TextileNode) :
  Online t = true ->
  trepo.GetAlbum aid (Datastore t) = Some a ->
  linked ext a head (missed ++ known) ->
  (forall r, r ∈ missed -> trepo.GetPhoto (trepo.Cid r) (Datastore t) = None) ->
  (forall r, r ∈ known -> trepo.GetPhoto (trepo.Cid r) (Datastore t) = Some r) ->
  exists t' l,
    (forall fuel, length missed < fuel ->
       handleHash ext fuel head aid t = (Returns None, t', l)) /\
    trepo.photos (Datastore t') = reverse missed ++ trepo.photos (Datastore t) /\
    (forall r, r ∈ missed ++ known ->
       trepo.GetPhoto (trepo.Cid r) (Datastore t') = Some r) /\
    datac t' = notify_all a missed (datac t) /\
    (exists p, t' = after_walk a missed p t) /\
    (forall msg fuel,
       GetData msg = head -> content_id head -> GetFrom msg <> Identity t ->
       length missed < fuel ->
       handleRoomUpdate ext fuel msg aid t =
         (Returns None, t',
          Log DEBUG "got update from %s in room %s" [GetFrom msg; aid] :: l)).
Proof.
  intros Hon Ha Hl Hfresh Hknown.
  pose proof (linked_NoDup ext a _ head Hl) as Hnd.
  destruct (walk_chain ext aid a missed known head t Hon Ha Hl Hnd Hfresh Hknown)
    as (p & l & E).
  assert (forall fuel, length missed < fuel ->
    handleHash ext fuel head aid t = (Returns None, after_walk a missed p t, l)) as Hwalk.
  { intros fuel Hlt. eapply handleHash_more_fuel; [exact E|lia]. }
  rewrite fmap_app in Hnd. apply NoDup_app in Hnd as (Hndm & Hdisj & _).
  exists (after_walk a missed p t), l. split_and!; [exact Hwalk| | | | |]; cycle 4.
  { intros msg fuel Hd Hcid Hfrom Hlt.
    rewrite handleRoomUpdate_other by done. apply Split_no_sep in Hcid.
    rewrite Hd, Hcid. simpl. by rewrite (Hwalk fuel Hlt). }
  - reflexivity.
  - intros r [Hin|Hin]%elem_of_app.
    + eapply (GetPhoto_in_index (reverse missed)).
      * by rewrite fmap_reverse, reverse_Permutation.
      * by apply elem_of_reverse.
      * reflexivity.
    + rewrite (GetPhoto_below (reverse missed) _ (Datastore t)); [by apply Hknown| |done].
      rewrite fmap_reverse, elem_of_reverse. intros Hm.
      apply (Hdisj _ Hm). by apply list_elem_of_fmap_2.
  - reflexivity.
  - by exists p.
Qed.

(** C8: in a hop whose root, thumb, meta and last can be pinned, a caption
    that cannot be fetched or decrypted does not fail the hop: the record is
    indexed with the empty caption, the listener is offered the update and
    the walk goes on from the back-pointer; metadata that cannot be fetched,
    decrypted or decoded, or a back-pointer that cannot be fetched or
    decrypted, makes handleHash return the error with nothing indexed and
    nothing sent. *)
Theorem handleHash_caption_failure (fuel : nat) (hash aid : string)
    (a : trepo.PhotoAlbum) (t : TextileNode) :
  Online t = true ->
  trepo.GetAlbum aid (Datastore t) = Some a ->
  hash <> EmptyString ->
  trepo.GetPhoto hash (Datastore t) = None ->
  pinnable ext hash = true -> pinnable ext (hash +:+ "/thumb") = true ->
  pinnable ext (hash +:+ "/meta") = true -> pinnable ext (hash +:+ "/last") = true ->
  (forall b md last,
     part ext (hash +:+ "/meta") (trepo.Key a) = Some b ->
     json_Unmarshal ext b = Ok md ->
     part ext (hash +:+ "/last") (trepo.Key a) = Some last ->
     part ext (hash +:+ "/caption") (trepo.Key a) = None ->
     let r := {| trepo.Cid := hash; trepo.LastCid := last; trepo.AlbumID := aid;
                 trepo.MetaData := md; trepo.Caption := EmptyString;
                 trepo.IsLocal := false |} in
     exists p l,
       handleHash ext (S fuel) hash aid t =
         (let '(o, t', l') := handleHash ext fuel last aid (after_hop a r p t) in
          (o, t', l ++ l'))) /\
  ((part ext (hash +:+ "/meta") (trepo.Key a) = None \/
    (exists b e, part ext (hash +:+ "/meta") (trepo.Key a) = Some b /\
                 json_Unmarshal ext b = Err e) \/
    (exists b md, part ext (hash +:+ "/meta") (trepo.Key a) = Some b /\
                  json_Unmarshal ext b = Ok md /\
                  part ext (hash +:+ "/last") (trepo.Key a) = None)) ->
   exists e p l,
     handleHash ext (S fuel) hash aid t =
       (Returns (Some e), set_pinned (pinned t ++ p) t, l)).
Proof.
  intros Hon Ha Hne Hp H1 H2 H3 H4. split.
  - intros b md last Hb Hj Hl Hc r.
    apply (handleHash_hop ext fuel aid a r t); try done.
    unfold stored. simpl. rewrite Hc. split_and!; try done. by exists b.
  - intros Hfail. by eapply handleHash_abort.
Qed.

End ChainTheorems.

Section RelayTheorems.

Variable ext : External.

(** Framing a payload that is not a relay frame already changes the origin
    in the log and nothing else. *)
Lemma handleRoomUpdate_frame (fuel : nat) (from data aid : string) (t : TextileNode) :
  relay_framed data = false ->
  exists o t' l,
    handleRoomUpdate ext fuel {| GetFrom := from; GetData := data |} aid t = (o, t', l) /\
    handleRoomUpdate ext fuel {| GetFrom := from; GetData := "relay:" +:+ data |} aid t
      = (o, t', tag_relay l).
Proof.
  unfold relay_framed. intros Hd.
  destruct (decide (from = Identity t)) as [Heq|Hne].
  - exists (Returns None), t, [].
    split; apply handleRoomUpdate_own; simpl; by apply String.eqb_eq.
  - rewrite !handleRoomUpdate_other by done. simpl GetData. simpl GetFrom.
    rewrite Split_relay, Hd.
    destruct (Split_cons data ":") as (x & xs & ->). simpl.
    destruct (handleHash ext fuel x aid t) as [[o t'] l]; eauto.
Qed.

Lemma content_id_not_framed (h : string) : content_id h -> relay_framed h = false.
Proof. unfold content_id, relay_framed. by intros ->. Qed.

(** C7: for a content id h, handling the payload "relay:" followed by h
    returns the same result and leaves the same node (index, pins, listener
    channel) as handling the bare h; the logs differ only in the origin of
    the first line, which carries the relay tag. *)
Theorem handleRoomUpdate_relay_frame (fuel : nat) (from h aid : string)
    (t : TextileNode) :
  content_id h ->
  exists o t' l,
    handleRoomUpdate ext fuel {| GetFrom := from; GetData := h |} aid t = (o, t', l) /\
    handleRoomUpdate ext fuel {| GetFrom := from; GetData := "relay:" +:+ h |} aid t
      = (o, t', tag_relay l).
Proof.
  intros Hh. apply handleRoomUpdate_frame. by apply content_id_not_framed.
Qed.

End RelayTheorems.

(** A payload that is itself a relay frame is not a content id, and framing
    it once more sends the walk to a different hash. *)
Remark relay_frame_of_frame :
  ~ content_id "relay:Qm1" /\
  (handleRoomUpdate Demo.ext 3 {| GetFrom := "QmPeer"; GetData := "relay:Qm1" |}
     "thread1" Demo.node).1.1 = Returns None /\
  (handleRoomUpdate Demo.ext 3 {| GetFrom := "QmPeer"; GetData := "relay:relay:Qm1" |}
     "thread1" Demo.node).1.1 = Returns (Some Demo.timeout).
Proof. split; [discriminate|]. split; vm_compute; reflexivity. Qed.

(** ** The theorems at work in the small world *)

Lemma handleHash_unknown_album_witness :
  handleHash Demo.ext 1 EmptyString "thread9" Demo.node =
    (Returns (Some "could not find album with id: thread9"), Demo.node, []).
Proof. apply (handleHash_unknown_album Demo.ext 0 EmptyString "thread9" Demo.node). reflexivity. Defined.

Lemma handleRoomUpdate_self_witness :
  handleRoomUpdate Demo.ext 3 {| GetFrom := "QmMe"; GetData := "Qm2" |} "thread1" Demo.node
    = (Returns None, Demo.node, []).
Proof. apply (handleRoomUpdate_self Demo.ext 3 _ "thread1" Demo.node). reflexivity. Defined.

Lemma handleRoomUpdate_relay_frame_witness :
  exists o t' l,
    handleRoomUpdate Demo.ext 3 {| GetFrom := "QmPeer"; GetData := "Qm2" |}
      "thread1" Demo.node = (o, t', l) /\
    handleRoomUpdate Demo.ext 3 {| GetFrom := "QmPeer"; GetData := "relay:" +:+ "Qm2" |}
      "thread1" Demo.node = (o, t', tag_relay l).
Proof.
  apply (handleRoomUpdate_relay_frame Demo.ext 3 "QmPeer" "Qm2" "thread1" Demo.node).
  reflexivity.
Defined.

Lemma Demo_chain_linked : linked Demo.ext Demo.album1 "Qm2" Demo.chain.
Proof.
  simpl. unfold stored. simpl.
  repeat split; try discriminate; try reflexivity;
    eexists; split; reflexivity.
Defined.

Lemma handleHash_backfills_chain_witness :
  exists t' l,
    (forall fuel, 2 < fuel ->
       handleHash Demo.ext fuel "Qm2" "thread1" Demo.node = (Returns None, t', l)) /\
    trepo.photos (Datastore t') = reverse Demo.chain ++ [] /\
    (forall r, r ∈ Demo.chain ++ [] ->
       trepo.GetPhoto (trepo.Cid r) (Datastore t') = Some r) /\
    datac t' = notify_all Demo.album1 Demo.chain (datac Demo.node) /\
    (exists p, t' = after_walk Demo.album1 Demo.chain p Demo.node) /\
    (forall msg fuel,
       GetData msg = "Qm2" -> content_id "Qm2" -> GetFrom msg <> Identity Demo.node ->
       length Demo.chain < fuel ->
       handleRoomUpdate Demo.ext fuel msg "thread1" Demo.node =
         (Returns None, t',
          Log DEBUG "got update from %s in room %s" [GetFrom msg; "thread1"] :: l)).
Proof.
  apply (handleHash_backfills_chain Demo.ext "thread1" "Qm2" Demo.album1 Demo.chain []
           Demo.node).
  - reflexivity.
  - reflexivity.
  - exact Demo_chain_linked.
  - intros r _. reflexivity.
  - intros r Hin. by apply elem_of_nil in Hin.
Defined.

Lemma handleHash_caption_failure_witness :
  exists p l,
    handleHash Demo.ext 2 "Qm1" "thread1" Demo.node =
      (let '(o, t', l') :=
         handleHash Demo.ext 1 EmptyString "thread1"
           (after_hop Demo.album1 (Demo.remote "Qm1" EmptyString EmptyString "meta1")
              p Demo.node) in
       (o, t', l ++ l')).
Proof.
  destruct (handleHash_caption_failure Demo.ext 1 "Qm1" "thread1" Demo.album1 Demo.node)
    as [Hcaption _]; try reflexivity; try discriminate.
  exact (Hcaption "meta1" (Demo.meta_of "meta1") EmptyString
           eq_refl eq_refl eq_refl eq_refl).
Defined.

(** ** Local publish *)

Section PublishTheorems.

Variable ext : External.

(** C9: when photos.Add, the step that encodes, stores and pins the bundle,
    fails, AddPhoto returns that error and the datastore, so the photo
    index, is as it was; and whenever AddPhoto returns an error at all the
    datastore is as it was, so a record is in the index only when the bundle
    was stored. *)
Theorem AddPhoto_index_atomic (path thumb album caption : string) (t : TextileNode) :
  (forall p th a e pins,
     Online t = true ->
     os_Open ext path = Ok p -> os_Open ext thumb = Ok th ->
     trepo.GetAlbumByName album (Datastore t) = Some a ->
     photos_Add ext (GetPublic ext (trepo.Key a)) p th (last_local a t)
       (signed_in_as t) caption = (Err e, pins) ->
     exists l,
       AddPhoto ext path thumb album caption t =
         (Err e, set_pinned (pinned t ++ pins) t, l)) /\
  (forall e,
     (AddPhoto ext path thumb album caption t).1.1 = Err e ->
     Datastore (AddPhoto ext path thumb album caption t).1.2 = Datastore t).
Proof.
  split.
  - intros p th a e pins Hon Hp Hth Ha Hadd.
    unfold last_local, signed_in_as in Hadd.
    unfold AddPhoto. unfold_monad. rewrite Hon. simpl. rewrite Hp, Hth, Ha.
    destruct (trepo.GetPhotos _ 1 _ (Datastore t)) as [|r recent];
      destruct (trepo.GetUsername (Datastore t)) as [un|eu];
      simpl; rewrite Hadd; simpl; eauto.
  - intros e. unfold AddPhoto, Photos_Put, Floodsub_Publish, trepo.PutPhoto.
    unfold_monad.
    repeat (case_match; simpl in *; simplify_eq); try reflexivity;
      intros; simplify_eq; reflexivity.
Qed.

(** ** Republish *)

(** The loop is left at the first album without a local update. *)
Lemma republish_range_no_local (a : trepo.PhotoAlbum) (rest : list trepo.PhotoAlbum)
    (t : TextileNode) :
  trepo.GetPhotos EmptyString 1 (trepo.album_is_and_local (trepo.Id a)) (Datastore t) = [] ->
  republish_range ext (a :: rest) t = (tt, t, []).
Proof. intros H. simpl. unfold_monad. by rewrite H. Qed.



(** ** The gateway *)

(** The handler leaves the node, and so the tokens, as they are. *)
Lemma gatewayHandler_node (r : Request) (t : TextileNode) :
  (gatewayHandler ext r t).1.2 = t.
Proof.
  unfold gatewayHandler. unfold_monad. simpl.
  destruct (BasicAuth r) as [[user password]|]; [|reflexivity].
  destruct (length (Split (URL_Path r) "/") <? 3); [reflexivity|].
  destruct (negb _); [reflexivity|].
  pose proof (GetFile_node ext (URL_Path r) None t) as H.
  destruct (GetFile ext (URL_Path r) None t) as [[[b|e] t1] l1]; simpl in *;
    by subst.
Qed.

(** A request that was answered is answered in the same way when it comes
    again. *)
Lemma gatewayHandler_again (r : Request) (t t' : TextileNode) (resp : Response)
    (l : list logline) :
  gatewayHandler ext r t = (resp, t', l) ->
  gatewayHandler ext r t' = (resp, t', l).
Proof.
  intros H. pose proof (gatewayHandler_node r t) as Hn.
  rewrite H in Hn. simpl in Hn. by subst.
Qed.

End PublishTheorems.

(** C4, the code at an input where the claim fails: the datastore knows
    album1 and album2, album2 has the local update Qm9 and album1 has none;
    republishLatestUpdates returns at album1 and publishes nothing, so Qm9
    does not go out to the topic of album2. *)
Theorem republishLatestUpdates_skips_album :
  trepo.GetAlbums (Datastore Demo.node2) = [Demo.album1; Demo.album2] /\
  trepo.GetPhotos EmptyString 1 (trepo.album_is_and_local (trepo.Id Demo.album2))
    (Datastore Demo.node2) = [Demo.local2] /\
  republishLatestUpdates Demo.ext Demo.node2 = (tt, Demo.node2, []) /\
  published (republishLatestUpdates Demo.ext Demo.node2).1.2 = [].
Proof. repeat split. Qed.

(** C5, the code at an input where the claim fails: a token is issued for
    Qm1/photo and a request presenting it is served with the decrypted
    photo; the same request with the same token is then served again with
    status 200 and the same body, and the token is still the current one. *)
Theorem gateway_token_served_twice :
  let '(hr, t0, _) := GetHashRequest Demo.ext "Qm1/photo" Demo.node3 in
  let '(first, t1, _) := gatewayHandler Demo.ext (Demo.get_photo (Token hr)) t0 in
  let '(second, t2, _) := gatewayHandler Demo.ext (Demo.get_photo (Token hr)) t1 in
  first = {| StatusCode := 200; Header := []; Body := "photo1" |} /\
  second = {| StatusCode := 200; Header := []; Body := "photo1" |} /\
  HashPasses t2 !! "Qm1/photo" = Some (Token hr).
Proof. vm_compute. repeat split. Qed.

(** A local publish that goes through: the record is on top of the index,
    local, chained to the latest local update (none here), and its content
    id has gone out to the topic of the thread. *)
Example AddPhoto_indexes_and_publishes :
  let '(r, t', _) := AddPhoto Demo.ext_adding "/tmp/a.jpg" "/tmp/a_thumb.jpg" "album1"
                       "a caption" Demo.node in
  r = Ok {| net.Boundary := "Qm7" |} /\
  trepo.photos (Datastore t') =
    [{| trepo.Cid := "Qm7"; trepo.LastCid := EmptyString; trepo.AlbumID := "thread1";
        trepo.MetaData := Demo.meta_of "meta7"; trepo.Caption := "a caption";
        trepo.IsLocal := true |}] /\
  published t' = [("thread1", "Qm7")] /\
  pinned t' = [("/ipfs/Qm7", true)].
Proof. vm_compute. repeat split. Qed.

Lemma AddPhoto_index_atomic_witness :
  exists l,
    AddPhoto Demo.ext "/tmp/a.jpg" "/tmp/a_thumb.jpg" "album1" "a caption" Demo.node =
      (Err "disk full", set_pinned (pinned Demo.node ++ []) Demo.node, l).
Proof.
  destruct (AddPhoto_index_atomic Demo.ext "/tmp/a.jpg" "/tmp/a_thumb.jpg" "album1"
              "a caption" Demo.node) as [Hfail _].
  exact (Hfail "/tmp/a.jpg" "/tmp/a_thumb.jpg" Demo.album1 "disk full" []
           eq_refl eq_refl eq_refl eq_refl eq_refl).
Defined.

(** ** Identities *)

Section IdentityTheorems.

Variable crypto : Crypto.

(** C3: two runs of the derivation on the same phrase, on any two nodes and
    under any two album names, end with the same thread id and the same
    private key bytes (or with the same error), and the encoded key is the
    same; the derivation reads neither the node nor the random source and
    leaves the node as it is. *)
Theorem albumFromMnemonic_deterministic (mnemonic name1 name2 : string)
    (t1 t2 : TextileNode) :
  derived (albumFromMnemonic crypto mnemonic name1 t1).1.1 =
  derived (albumFromMnemonic crypto mnemonic name2 t2).1.1 /\
  (albumFromMnemonic crypto mnemonic name1 t1).1.2 = t1 /\
  forall a1 a2,
    (albumFromMnemonic crypto mnemonic name1 t1).1.1 = Ok a1 ->
    (albumFromMnemonic crypto mnemonic name2 t2).1.1 = Ok a2 ->
    trepo.Id a1 = trepo.Id a2 /\ trepo.Key a1 = trepo.Key a2.
Proof.
  unfold albumFromMnemonic. unfold_monad.
  destruct (identityKeyFromSeed crypto _) as [kb|e]; simpl; [|by repeat split].
  destruct (UnmarshalPrivateKey crypto kb) as [sk|e]; simpl; [|by repeat split].
  destruct (IDFromPrivateKey crypto sk) as [id|e]; simpl; [|by repeat split].
  repeat split; simplify_eq; done.
Qed.

End IdentityTheorems.

(** ** Handling the same content id again *)

Section Idempotence.

Variable ext : External.

Lemma hop_check_node (hash aid : string) (t : TextileNode) :
  (hop_check hash aid t).1.2 = t.
Proof.
  unfold hop_check. unfold_monad.
  destruct (trepo.GetAlbum aid (Datastore t)); [|reflexivity].
  destruct (String.eqb hash EmptyString); [reflexivity|]. simpl.
  destruct (trepo.GetPhoto hash (Datastore t)); reflexivity.
Qed.

Lemma pinPath_Datastore (path : string) (recursive : bool) (t : TextileNode) :
  Datastore (pinPath ext path recursive t).1.2 = Datastore t.
Proof.
  destruct (pinPath_frame ext path recursive t) as (e & p & l & ->). reflexivity.
Qed.

Lemma keeps_ret {A X : Type} (f : TextileNode -> X) (a : A) : keeps f (ret a).
Proof. by intros t. Qed.

Lemma keeps_logf {X : Type} (f : TextileNode -> X) lv fmt a : keeps f (logf lv fmt a).
Proof. by intros t. Qed.

Lemma keeps_gets {A X : Type} (f : TextileNode -> X) (g : TextileNode -> A) :
  keeps f (gets g).
Proof. by intros t. Qed.

Lemma keeps_bind {A B X : Type} (f : TextileNode -> X) (m : M A) (k : A -> M B) :
  keeps f m -> (forall a, keeps f (k a)) -> keeps f (bind m k).
Proof.
  intros Hm Hk t. unfold bind. specialize (Hm t).
  destruct (m t) as [[a t1] l1]. specialize (Hk a t1).
  destruct (k a t1) as [[b t2] l2]. simpl in *. congruence.
Qed.

Lemma keeps_pinPath (path : string) (recursive : bool) :
  keeps Datastore (pinPath ext path recursive).
Proof. intros t. apply pinPath_Datastore. Qed.

Lemma keeps_GetFile {X : Type} (f : TextileNode -> X) (path : string)
    (album : option trepo.PhotoAlbum) :
  keeps f (GetFile ext path album).
Proof. intros t. by rewrite GetFile_node. Qed.

Ltac keeps_step :=
  first
    [ apply keeps_ret | apply keeps_logf | apply keeps_gets | apply keeps_pinPath
    | apply keeps_GetFile
    | apply keeps_bind; [|intros ?]
    | match goal with
      | |- keeps _ (match ?x with _ => _ end) => destruct x
      end ].

(** The stretch that pins and unpacks leaves the datastore as it is. *)
Lemma hop_fetch_Datastore (hash : string) (a : trepo.PhotoAlbum) (t : TextileNode) :
  Datastore (hop_fetch ext hash a t).1.2 = Datastore t.
Proof.
  revert t. change (keeps Datastore (hop_fetch ext hash a)).
  unfold hop_fetch, GetMetaData, GetLastHash, GetCaption.
  repeat keeps_step.
Qed.

Lemma yields_ret {A : Type} (P : A -> Prop) (a : A) : P a -> yields P (ret a).
Proof. by intros H t. Qed.

Lemma yields_bind {A B : Type} (P : B -> Prop) (m : M A) (k : A -> M B) :
  (forall a, yields P (k a)) -> yields P (bind m k).
Proof.
  intros Hk t. unfold bind. destruct (m t) as [[a t1] l1]. specialize (Hk a t1).
  by destruct (k a t1) as [[b t2] l2].
Qed.

Ltac yields_step :=
  first
    [ apply yields_ret; exact I
    | apply yields_bind; intros ?
    | match goal with
      | |- yields _ (match ?x with _ => _ end) => destruct x
      end ].

(** The stretch that pins and unpacks returns from handleHash with an error
    only. *)
Lemma hop_fetch_no_nil (hash : string) (a : trepo.PhotoAlbum) (t : TextileNode) :
  no_nil_return (hop_fetch ext hash a t).1.1.
Proof.
  revert t. change (yields no_nil_return (hop_fetch ext hash a)).
  unfold hop_fetch. repeat yields_step.
Qed.

(** The stretch that indexes: the content id is in the index and Put fails,
    or it is not and the record is put on top. *)
Lemma hop_index_cases (hash aid : string) (a : trepo.PhotoAlbum) (md : photos.Metadata)
    (last caption : string) (t : TextileNode) :
  let set := {| trepo.Cid := hash; trepo.LastCid := last; trepo.AlbumID := aid;
                trepo.MetaData := md; trepo.Caption := caption;
                trepo.IsLocal := false |} in
  (exists p, trepo.GetPhoto hash (Datastore t) = Some p /\
     hop_index hash aid a md last caption t =
       (Return (Some trepo.AlreadyIndexed), t, [Log DEBUG "indexing %s..." [hash]])) \/
  (trepo.GetPhoto hash (Datastore t) = None /\
     hop_index hash aid a md last caption t =
       (Proceed last, after_hop a set [] (set_pinned (pinned t) t),
        [Log DEBUG "indexing %s..." [hash]])).
Proof.
  intros set. unfold hop_index, Photos_Put, trepo.PutPhoto. unfold_monad. simpl.
  destruct (trepo.GetPhoto hash (Datastore t)) as [p|] eqn:Hp.
  - left. exists p. split; [done|]. by rewrite set_Datastore_id.
  - right. split; [done|]. unfold after_hop. simpl. by rewrite app_nil_r.
Qed.

(** What the index holds stays in it, and the albums stay, over a call of
    handleHash. *)
Lemma handleHash_index_grows (fuel : nat) (hash aid : string) (t : TextileNode) :
  trepo.albums (Datastore (handleHash ext fuel hash aid t).1.2) = trepo.albums (Datastore t) /\
  forall c p,
    trepo.GetPhoto c (Datastore t) = Some p ->
    trepo.GetPhoto c (Datastore (handleHash ext fuel hash aid t).1.2) = Some p.
Proof.
  revert hash t. induction fuel as [|fuel IH]; intros hash t; [by split|].
  simpl. unfold bind.
  pose proof (hop_check_node hash aid t) as H1.
  destruct (hop_check hash aid t) as [[[e1|a] t1] l1]; simpl in H1; subst t1;
    [by split|].
  pose proof (hop_fetch_Datastore hash a t) as H2.
  destruct (hop_fetch ext hash a t) as [[[e2|[[md last] cap]] t2] l2]; simpl in H2.
  { simpl. rewrite H2. by split. }
  destruct (hop_index_cases hash aid a md last cap t2) as [(p & Hp & E)|(Hp & E)];
    rewrite E.
  { simpl. rewrite H2. by split. }
  specialize (IH last (after_hop a
    {| trepo.Cid := hash; trepo.LastCid := last; trepo.AlbumID := aid;
       trepo.MetaData := md; trepo.Caption := cap; trepo.IsLocal := false |} []
    (set_pinned (pinned t2) t2))).
  destruct (handleHash ext fuel last aid _) as [[o t4] l4]. simpl in *.
  destruct IH as [IHa IHp]. split; [by rewrite IHa, H2|].
  intros c p Hc. apply IHp. unfold trepo.GetPhoto in *. simpl.
  rewrite H2 in *.
  destruct (String.eqb hash c) eqn:Heq; [|done].
  apply String.eqb_eq in Heq. subst c. congruence.
Qed.

(** A call that returned nil for a content id has it in the index. *)
Lemma handleHash_indexes (fuel : nat) (hash aid : string) (t t' : TextileNode)
    (l : list logline) :
  handleHash ext fuel hash aid t = (Returns None, t', l) ->
  hash <> EmptyString ->
  exists a p, trepo.GetAlbum aid (Datastore t') = Some a /\
              trepo.GetPhoto hash (Datastore t') = Some p.
Proof.
  destruct fuel as [|fuel]; [discriminate|].
  intros H Hne. simpl in H. unfold bind, ret in H.
  pose proof (hop_check_node hash aid t) as H1.
  destruct (hop_check hash aid t) as [[[e1|a] t1] l1] eqn:Ec; simpl in H1; subst t1.
  - simpl in H. simplify_eq. unfold hop_check in Ec. unfold_monad. simpl in Ec.
    destruct (trepo.GetAlbum aid (Datastore t')) as [a|] eqn:Ha; [|discriminate Ec].
    apply String.eqb_neq in Hne. rewrite Hne in Ec. simpl in Ec.
    destruct (trepo.GetPhoto hash (Datastore t')) as [p|] eqn:Hp; [|discriminate Ec].
    eauto.
  - assert (trepo.GetAlbum aid (Datastore t) = Some a) as Ha.
    { unfold hop_check in Ec. unfold_monad. simpl in Ec.
      destruct (trepo.GetAlbum aid (Datastore t)) as [a'|]; [|discriminate Ec].
      destruct (String.eqb hash EmptyString); [discriminate Ec|]. simpl in Ec.
      destruct (trepo.GetPhoto hash (Datastore t)); [discriminate Ec|]. congruence. }
    pose proof (hop_fetch_Datastore hash a t) as H2.
    pose proof (hop_fetch_no_nil hash a t) as Hnn.
    destruct (hop_fetch ext hash a t) as [[[e2|[[md last] cap]] t2] l2];
      simpl in H2, Hnn; [by destruct e2; simpl in H; simplify_eq|].
    destruct (hop_index_cases hash aid a md last cap t2) as [(p & Hp & E)|(Hp & E)];
      rewrite E in H; [by simpl in H; simplify_eq|].
    match type of H with
    | context [handleHash ext fuel last aid ?t3] =>
        pose proof (handleHash_index_grows fuel last aid t3) as [Hal Hgr];
        destruct (handleHash ext fuel last aid t3) as [[o t4] l4] eqn:E4
    end.
    simplify_eq. simpl in *.
    exists a. eexists. split.
    + unfold trepo.GetAlbum in *. rewrite Hal, H2. exact Ha.
    + apply Hgr. unfold trepo.GetPhoto. simpl. by rewrite String.eqb_refl.
Qed.

(** Handling a content id once more, after a call that returned nil for it:
    nil again, the node as it is, and two lines in the log. *)
Lemma handleHash_again (fuel fuel' : nat) (hash aid : string) (t t' : TextileNode)
    (l : list logline) :
  handleHash ext fuel hash aid t = (Returns None, t', l) ->
  hash <> EmptyString ->
  handleHash ext (S fuel') hash aid t' =
    (Returns None, t', [Log DEBUG "handling update: %s..." [hash];
                        Log DEBUG "update %s exists, aborting" [hash]]).
Proof.
  intros H Hne. destruct (handleHash_indexes _ _ _ _ _ _ H Hne) as (a & p & Ha & Hp).
  simpl. by rewrite (bind_run _ _ _ _ _ _ (hop_check_indexed _ _ _ _ _ Ha Hne Hp)).
Qed.

Lemma GetPhoto_None (cid : string) (ds : trepo.Datastore) :
  trepo.GetPhoto cid ds = None -> cid ∉ trepo.Cid <$> trepo.photos ds.
Proof.
  unfold trepo.GetPhoto. induction (trepo.photos ds) as [|x l IH]; simpl.
  - intros _ Hin. by apply elem_of_nil in Hin.
  - destruct (String.eqb (trepo.Cid x) cid) eqn:Heq; [discriminate|].
    intros Hf Hin. apply elem_of_cons in Hin as [Hx|Hin]; [|by apply IH].
    apply String.eqb_neq in Heq. congruence.
Qed.

Lemma filter_Cid_absent (cid : string) (l : list trepo.PhotoSet) :
  cid ∉ trepo.Cid <$> l -> filter (fun p => trepo.Cid p = cid) l = [].
Proof.
  induction l as [|x l IH]; [done|]. rewrite fmap_cons.
  intros [Hx Hl]%not_elem_of_cons. rewrite filter_cons_False by congruence.
  by apply IH.
Qed.

Lemma records_of_unique (cid : string) (ds : trepo.Datastore) (p : trepo.PhotoSet) :
  unique_index ds -> trepo.GetPhoto cid ds = Some p -> records_of cid ds = [p].
Proof.
  unfold unique_index, records_of, trepo.GetPhoto.
  induction (trepo.photos ds) as [|x l IH]; simpl; [discriminate|].
  intros [Hx Hnd]%NoDup_cons.
  destruct (String.eqb (trepo.Cid x) cid) eqn:Heq.
  - apply String.eqb_eq in Heq. intros [= ->]. rewrite filter_cons_True by done.
    f_equal. apply filter_Cid_absent. by rewrite <- Heq.
  - apply String.eqb_neq in Heq. intros Hf. rewrite filter_cons_False by done.
    by apply IH.
Qed.

(** An index with one record at most for a content id stays so over a call
    of handleHash. *)
Lemma handleHash_unique_index (fuel : nat) (hash aid : string) (t : TextileNode) :
  unique_index (Datastore t) ->
  unique_index (Datastore (handleHash ext fuel hash aid t).1.2).
Proof.
  revert hash t. induction fuel as [|fuel IH]; intros hash t Hu; [done|].
  simpl. unfold bind.
  pose proof (hop_check_node hash aid t) as H1.
  destruct (hop_check hash aid t) as [[[e1|a] t1] l1]; simpl in H1; subst t1; [done|].
  pose proof (hop_fetch_Datastore hash a t) as H2.
  destruct (hop_fetch ext hash a t) as [[[e2|[[md last] cap]] t2] l2]; simpl in H2.
  { simpl. by rewrite H2. }
  destruct (hop_index_cases hash aid a md last cap t2) as [(p & Hp & E)|(Hp & E)];
    rewrite E.
  { simpl. by rewrite H2. }
  specialize (IH last (after_hop a
    {| trepo.Cid := hash; trepo.LastCid := last; trepo.AlbumID := aid;
       trepo.MetaData := md; trepo.Caption := cap; trepo.IsLocal := false |} []
    (set_pinned (pinned t2) t2))).
  destruct (handleHash ext fuel last aid _) as [[o t4] l4]. simpl in *.
  apply IH. unfold unique_index. simpl. apply NoDup_cons.
  split; [by apply GetPhoto_None|]. by rewrite H2.
Qed.

(** Handling the same content id twice, one call after the other: when the
    first call returns nil, the index holds exactly one record for the id,
    and the second call returns nil and leaves the node as it is. *)
Lemma handleHash_twice (fuel fuel' : nat) (hash aid : string) (t t' : TextileNode)
    (l : list logline) :
  unique_index (Datastore t) ->
  hash <> EmptyString ->
  handleHash ext fuel hash aid t = (Returns None, t', l) ->
  (exists p, records_of hash (Datastore t') = [p]) /\
  exists l', handleHash ext (S fuel') hash aid t' = (Returns None, t', l').
Proof.
  intros Hu Hne H.
  destruct (handleHash_indexes _ _ _ _ _ _ H Hne) as (a & p & Ha & Hp).
  split.
  - exists p. apply records_of_unique; [|done].
    pose proof (handleHash_unique_index fuel hash aid t Hu) as Hu'.
    by rewrite H in Hu'.
  - eexists. by eapply handleHash_again.
Qed.

End Idempotence.

(** ** Goroutines *)

Section WalkerFacts.

Variable ext : External.

Lemma run_walker_Finished (n : nat) (aid : string) (e : error) (t : TextileNode) :
  run_walker ext n aid (Finished e) t = (Finished e, t, []).
Proof. induction n as [|n IH]; [done|]. simpl. unfold bind, ret. by rewrite IH. Qed.

(** A goroutine left alone for three stretches per nested call does what
    handleHash does. *)
Lemma handleHash_run_walker (fuel : nat) (aid : string) :
  forall (hash : string) (t t' : TextileNode) (e : error) (l : list logline),
  handleHash ext fuel hash aid t = (Returns e, t', l) ->
  run_walker ext (3 * fuel) aid (AtCheck hash) t = (Finished e, t', l).
Proof.
  induction fuel as [|fuel IH]; intros hash t t' e l H; [discriminate|].
  replace (3 * S fuel) with (S (S (S (3 * fuel)))) by lia.
  simpl in H. unfold bind, ret in H.
  cbn [run_walker walker_step]. unfold bind, ret.
  destruct (hop_check hash aid t) as [[[e1|a] t1] l1].
  { simpl in *. rewrite run_walker_Finished. rewrite ?app_nil_r in *. by simplify_eq. }
  cbn [walker_step]. unfold bind, ret.
  destruct (hop_fetch ext hash a t1) as [[[e2|[[md last] cap]] t2] l2].
  { simpl in *. rewrite run_walker_Finished. rewrite ?app_nil_r in *. by simplify_eq. }
  cbn [walker_step]. unfold bind, ret.
  destruct (hop_index hash aid a md last cap t2) as [[[e3|last'] t3] l3].
  { simpl in *. rewrite run_walker_Finished. rewrite ?app_nil_r in *. by simplify_eq. }
  destruct (handleHash ext fuel last' aid t3) as [[o t4] l4] eqn:E.
  destruct o as [e4|]; [|discriminate H].
  assert (e4 = e) as -> by congruence.
  rewrite (IH last' t3 t4 e l4 E). rewrite ?app_nil_r in *. by simplify_eq.
Qed.

(** Two goroutines at the same hop of a chain that is in the store and not
    in the index: when both have looked the hash up before either has put
    the record in, the second to put returns the error of Put. *)
Lemma racing_walkers (aid : string) (a : trepo.PhotoAlbum) (r : trepo.PhotoSet)
    (t : TextileNode) :
  Online t = true ->
  trepo.GetAlbum aid (Datastore t) = Some a ->
  trepo.Cid r <> EmptyString ->
  trepo.GetPhoto (trepo.Cid r) (Datastore t) = None ->
  trepo.AlbumID r = aid -> trepo.IsLocal r = false ->
  stored ext a r ->
  exists t' l,
    interleave ext [true; false; true; true; false; false] aid
      (AtCheck (trepo.Cid r)) (AtCheck (trepo.Cid r)) t =
    ((AtCheck (trepo.LastCid r), Finished (Some trepo.AlreadyIndexed)), t', l) /\
    records_of (trepo.Cid r) (Datastore t') = r :: records_of (trepo.Cid r) (Datastore t).
Proof.
  intros Hon Ha Hne Hp Hid Hloc Hst.
  destruct (hop_fetch_stored ext a r t Hon Hst) as (p1 & l1 & E1).
  pose (t1 := set_pinned (pinned t ++ p1) t).
  pose proof (hop_index_fresh aid a r t1 Hp Hid Hloc) as E2.
  match type of E2 with _ = (_, ?x, _) => set (t2 := x) in E2 end.
  assert (Hon2 : Online t2 = true) by exact Hon.
  destruct (hop_fetch_stored ext a r t2 Hon2 Hst) as (p3 & l3 & E3).
  pose (t3 := set_pinned (pinned t2 ++ p3) t2).
  destruct (hop_index_cases (trepo.Cid r) aid a (trepo.MetaData r) (trepo.LastCid r)
              (trepo.Caption r) t3) as [(q & Hq & E4)|(Hq & _)]; cycle 1.
  { unfold trepo.GetPhoto in Hq. simpl in Hq. by rewrite String.eqb_refl in Hq. }
  exists t3. eexists. split.
  - cbn [interleave walker_step].
    eapply bind_eq.
    { eapply bind_eq; [by apply hop_check_proceed|]. reflexivity. }
    eapply bind_eq.
    { eapply bind_eq; [by apply hop_check_proceed|]. reflexivity. }
    eapply bind_eq.
    { cbn [walker_step]. eapply bind_eq; [exact E1|]. reflexivity. }
    eapply bind_eq.
    { cbn [walker_step]. eapply bind_eq; [exact E2|]. reflexivity. }
    eapply bind_eq.
    { cbn [walker_step]. eapply bind_eq; [exact E3|]. reflexivity. }
    eapply bind_eq.
    { cbn [walker_step]. eapply bind_eq; [exact E4|]. reflexivity. }
    reflexivity.
  - unfold records_of. simpl. by rewrite filter_cons_True.
Qed.

End WalkerFacts.

(** C1, the code at an input where the claim fails: two goroutines handle
    the same announced content id Qm1 in the room of thread1, on a node
    that has not indexed it.  Both pass the look-up in the index before
    either has put the record in; the first indexes it and returns nil, the
    second pins the parts once more and returns the error AlreadyIndexed
    from Put instead of nil.  One goroutine on its own, handling the id
    again afterwards, gets nil and leaves the node as it is. *)
Theorem concurrent_handleHash_loser_fails :
  let two := interleave Demo.ext [true; false; true; true; true; false; false]
               "thread1" (AtCheck "Qm1") (AtCheck "Qm1") Demo.node in
  two.1.1 = (Finished None, Finished (Some trepo.AlreadyIndexed)) /\
  records_of "Qm1" (Datastore two.1.2) =
    [Demo.remote "Qm1" EmptyString EmptyString "meta1"] /\
  pinned two.1.2 =
    [("/ipfs/Qm1", false); ("/ipfs/Qm1/thumb", false); ("/ipfs/Qm1/meta", false);
     ("/ipfs/Qm1/last", false);
     ("/ipfs/Qm1", false); ("/ipfs/Qm1/thumb", false); ("/ipfs/Qm1/meta", false);
     ("/ipfs/Qm1/last", false)] /\
  (handleHash Demo.ext 2 "Qm1" "thread1" Demo.node).1.1 = Returns None /\
  let once := (handleHash Demo.ext 2 "Qm1" "thread1" Demo.node).1.2 in
  (handleHash Demo.ext 2 "Qm1" "thread1" once).1.1 = Returns None /\
  (handleHash Demo.ext 2 "Qm1" "thread1" once).1.2 = once.
Proof. vm_compute. repeat split. Qed.

(** ** The earlier revision *)

Section LegacyFacts.

Variable ext : External.

(** The look-up of the album comes first in the earlier handleHash too. *)
Lemma legacy_handleHash_unknown_album (fuel : nat) (hash aid : string)
    (t : Legacy.TextileNode) :
  trepo.GetAlbum aid (Legacy.Datastore t) = None ->
  Legacy.handleHash ext (S fuel) hash aid t =
    (Returns (Some ("could not find album with id: " +:+ aid)), t, []).
Proof. intros H. simpl. unfold_monad. by rewrite H. Qed.

(** The earlier handleRoomUpdate does not look at the author: a message of
    the node's own goes to handleHash like any other. *)
Lemma legacy_handleRoomUpdate_any_author (fuel : nat) (msg : Message) (aid : string)
    (t : Legacy.TextileNode) :
  Legacy.handleRoomUpdate ext fuel msg aid t =
    (let '(o, t', l) := Legacy.handleHash ext fuel (GetData msg) aid t in
     (o, t', Log INFO "got update from %s in room %s" [GetFrom msg; aid] :: l)).
Proof.
  unfold Legacy.handleRoomUpdate. unfold_monad.
  by destruct (Legacy.handleHash ext fuel (GetData msg) aid t) as [[o t'] l].
Qed.

Lemma legacy_republish_range_no_local (a : trepo.PhotoAlbum)
    (rest : list trepo.PhotoAlbum) (t : Legacy.TextileNode) :
  trepo.GetPhotos EmptyString 1 (trepo.album_is_and_local (trepo.Id a))
    (Legacy.Datastore t) = [] ->
  Legacy.republish_range ext (a :: rest) t = (tt, t, []).
Proof. intros H. simpl. unfold_monad. by rewrite H. Qed.




End LegacyFacts.

(** The earlier republishLatestUpdates leaves the loop at album1 in the same
    way and publishes nothing for album2. *)
Remark legacy_republishLatestUpdates_skips_album :
  Legacy.republishLatestUpdates Demo.ext Legacy.node2 = (tt, Legacy.node2, []).
Proof. reflexivity. Qed.

(** * Further properties *)

(** ** The effects of a chain walk *)

Section WalkEffects.

Variable ext : External.

Lemma set_pinned_nil (t : TextileNode) : set_pinned (pinned t ++ []) t = t.
Proof. rewrite app_nil_r. by destruct t. Qed.

Lemma pins_only_ret {A : Type} (a : A) : pins_only (ret a).
Proof. intros t. exists []. by rewrite set_pinned_nil. Qed.

Lemma pins_only_logf lv fmt a : pins_only (logf lv fmt a).
Proof. intros t. exists []. by rewrite set_pinned_nil. Qed.

Lemma pins_only_gets {A : Type} (g : TextileNode -> A) : pins_only (gets g).
Proof. intros t. exists []. by rewrite set_pinned_nil. Qed.

Lemma pins_only_bind {A B : Type} (m : M A) (k : A -> M B) :
  pins_only m -> (forall a, pins_only (k a)) -> pins_only (bind m k).
Proof.
  intros Hm Hk t. unfold bind. destruct (Hm t) as [p Hp].
  destruct (m t) as [[a t1] l1]. simpl in Hp. subst t1.
  destruct (Hk a (set_pinned (pinned t ++ p) t)) as [p' Hp'].
  destruct (k a _) as [[b t2] l2]. simpl in *. subst t2.
  exists (p ++ p'). apply set_pinned_app.
Qed.

Lemma pins_only_pinPath (path : string) (recursive : bool) :
  pins_only (pinPath ext path recursive).
Proof.
  intros t. destruct (pinPath_frame ext path recursive t) as (e & p & l & ->). eauto.
Qed.

Lemma pins_only_GetFile (path : string) (album : option trepo.PhotoAlbum) :
  pins_only (GetFile ext path album).
Proof. intros t. exists []. by rewrite GetFile_node, set_pinned_nil. Qed.

Ltac pins_only_step :=
  first
    [ apply pins_only_ret | apply pins_only_logf | apply pins_only_gets
    | apply pins_only_pinPath | apply pins_only_GetFile
    | apply pins_only_bind; [|intros ?]
    | match goal with
      | |- pins_only (match ?x with _ => _ end) => destruct x
      end ].

(** The stretch that pins and unpacks adds pins and does nothing else. *)
Lemma hop_fetch_pins_only (hash : string) (a : trepo.PhotoAlbum) :
  pins_only (hop_fetch ext hash a).
Proof.
  unfold hop_fetch, GetMetaData, GetLastHash, GetCaption. repeat pins_only_step.
Qed.

Lemma after_hop_pins (a : trepo.PhotoAlbum) (r : trepo.PhotoSet)
    (p : list (string * bool)) (t : TextileNode) :
  after_hop a r [] (set_pinned (pinned (set_pinned (pinned t ++ p) t))
                      (set_pinned (pinned t ++ p) t)) = after_hop a r p t.
Proof. unfold after_hop, set_pinned. simpl. by rewrite app_nil_r. Qed.

Lemma GetPhoto_cons_None (cid : string) (r : trepo.PhotoSet) (l : list trepo.PhotoSet) :
  find (fun p => String.eqb (trepo.Cid p) cid) (r :: l) = None ->
  trepo.Cid r <> cid /\ find (fun p => String.eqb (trepo.Cid p) cid) l = None.
Proof.
  simpl. destruct (String.eqb (trepo.Cid r) cid) eqn:E; [discriminate|].
  apply String.eqb_neq in E. done.
Qed.

(** What a call of handleHash does to the node, whatever it returns: it
    pins, it puts on top of the index a run of records that follow one
    another by their back-pointers from the hash it was given, all of them
    remote, of the thread, with a content id that is not empty and was not
    indexed, and it offers each of them to the listener. *)
Lemma handleHash_effects (fuel : nat) (aid : string) (a : trepo.PhotoAlbum) :
  forall (hash : string) (t : TextileNode),
  trepo.GetAlbum aid (Datastore t) = Some a ->
  exists new p,
    (handleHash ext fuel hash aid t).1.2 = after_walk a new p t /\
    path_from hash new /\
    Forall (fun r => trepo.AlbumID r = aid /\ trepo.IsLocal r = false /\
                     trepo.Cid r <> EmptyString /\
                     trepo.GetPhoto (trepo.Cid r) (Datastore t) = None) new /\
    NoDup (trepo.Cid <$> new).
Proof.
  induction fuel as [|fuel IH]; intros hash t Ha.
  { exists [], []. rewrite after_walk_nil. repeat split; constructor. }
  simpl. unfold bind.
  pose proof (hop_check_node hash aid t) as H1.
  destruct (hop_check hash aid t) as [[[e1|a'] t1] l1] eqn:Ec; simpl in H1; subst t1.
  { exists [], []. rewrite after_walk_nil. repeat split; constructor. }
  assert (a' = a /\ hash <> EmptyString) as [-> Hne].
  { unfold hop_check in Ec. unfold_monad. simpl in Ec. rewrite Ha in Ec.
    destruct (String.eqb hash EmptyString) eqn:Eh; [discriminate Ec|]. simpl in Ec.
    destruct (trepo.GetPhoto hash (Datastore t)); [discriminate Ec|].
    apply String.eqb_neq in Eh. split; [|done]. by injection Ec as <- _. }
  destruct (hop_fetch_pins_only hash a t) as [p Hp].
  destruct (hop_fetch ext hash a t) as [[[e2|[[md last] cap]] t2] l2]; simpl in Hp;
    subst t2.
  { exists [], p. simpl. unfold after_walk. simpl.
    split; [by destruct t as [[] ? ? ? ? ? ? ? ?]|]. repeat split; constructor. }
  destruct (hop_index_cases hash aid a md last cap (set_pinned (pinned t ++ p) t))
    as [(q & Hq & E)|(Hq & E)]; rewrite E.
  { exists [], p. simpl. unfold after_walk. simpl.
    split; [by destruct t as [[] ? ? ? ? ? ? ? ?]|]. repeat split; constructor. }
  rewrite after_hop_pins.
  set (r := {| trepo.Cid := hash; trepo.LastCid := last; trepo.AlbumID := aid;
               trepo.MetaData := md; trepo.Caption := cap; trepo.IsLocal := false |}).
  destruct (IH last (after_hop a r p t)) as (new & p' & Hst & Hpath & Hall & Hnd);
    [exact Ha|].
  destruct (handleHash ext fuel last aid (after_hop a r p t)) as [[o t4] l4].
  simpl in *. subst t4.
  exists (r :: new), (p ++ p'). rewrite after_walk_cons.
  split; [reflexivity|]. split; [by split|]. split.
  - constructor; [by repeat split|].
    eapply Forall_impl; [exact Hall|]. intros x (Hx1 & Hx2 & Hx3 & Hx4).
    repeat split; try done. unfold trepo.GetPhoto in Hx4.
    by apply GetPhoto_cons_None in Hx4 as [_ Hx4].
  - rewrite fmap_cons. apply NoDup_cons. split; [|done].
    intros (x & Hxc & Hin)%list_elem_of_fmap.
    rewrite Forall_forall in Hall. destruct (Hall x Hin) as (_ & _ & _ & Hx4).
    unfold trepo.GetPhoto in Hx4. apply GetPhoto_cons_None in Hx4 as [Hx4 _].
    apply Hx4. exact Hxc.
Qed.

End WalkEffects.

Section WalkProperties.

Variable ext : External.

Lemma handleHash_no_album (fuel : nat) (hash aid : string) (t : TextileNode) :
  trepo.GetAlbum aid (Datastore t) = None ->
  (handleHash ext fuel hash aid t).1.2 = t.
Proof.
  intros H. destruct fuel as [|fuel]; [reflexivity|].
  simpl. unfold hop_check. unfold_monad. by rewrite H.
Qed.

(** The chain walk touches the photo index, the pin set and the listener
    channel and nothing else: albums, user name, gateway tokens, published
    messages, random source, online state and identity are as before, pins
    are only added and records are only put on top of the index. *)
Theorem handleHash_frame (fuel : nat) (hash aid : string) (t : TextileNode) :
  let t' := (handleHash ext fuel hash aid t).1.2 in
  trepo.albums (Datastore t') = trepo.albums (Datastore t) /\
  trepo.username (Datastore t') = trepo.username (Datastore t) /\
  HashPasses t' = HashPasses t /\
  GatewayProxy_Addr t' = GatewayProxy_Addr t /\
  published t' = published t /\
  entropy t' = entropy t /\
  Online t' = Online t /\
  Identity t' = Identity t /\
  (exists p, pinned t' = pinned t ++ p) /\
  (exists new, trepo.photos (Datastore t') = new ++ trepo.photos (Datastore t)).
Proof.
  destruct (trepo.GetAlbum aid (Datastore t)) as [a|] eqn:Ha.
  - destruct (handleHash_effects ext fuel aid a hash t Ha) as (new & p & -> & _).
    simpl. split_and!; try reflexivity; eauto.
  - rewrite handleHash_no_album by done. simpl.
    split_and!; try reflexivity; exists []; by rewrite ?app_nil_r.
Qed.

(** What the chain walk adds to the index is a run of the chain that starts
    at the announced hash: the records follow one another by their
    back-pointers, each is remote and of the announced thread, none has an
    empty content id or one that was indexed before, and no content id
    comes twice. *)
Theorem handleHash_indexes_a_run (fuel : nat) (hash aid : string) (t : TextileNode) :
  exists new,
    trepo.photos (Datastore (handleHash ext fuel hash aid t).1.2) =
      reverse new ++ trepo.photos (Datastore t) /\
    path_from hash new /\
    Forall (fun r => trepo.AlbumID r = aid /\ trepo.IsLocal r = false /\
                     trepo.Cid r <> EmptyString /\
                     trepo.GetPhoto (trepo.Cid r) (Datastore t) = None) new /\
    NoDup (trepo.Cid <$> new).
Proof.
  destruct (trepo.GetAlbum aid (Datastore t)) as [a|] eqn:Ha.
  - destruct (handleHash_effects ext fuel aid a hash t Ha)
      as (new & p & -> & Hpath & Hall & Hnd).
    exists new. by split_and!.
  - rewrite handleHash_no_album by done. exists []. split_and!; try done; constructor.
Qed.

Lemma filter_local_remote (q : trepo.query) (new old : list trepo.PhotoSet) :
  Forall (fun r => trepo.IsLocal r = false) new ->
  (exists id, q = trepo.album_is_and_local id) ->
  filter (fun p => trepo.matches q p = true) (new ++ old) =
  filter (fun p => trepo.matches q p = true) old.
Proof.
  intros Hall [id ->]. induction new as [|r new IH]; [done|].
  apply Forall_cons in Hall as [Hr Hall]. simpl.
  rewrite filter_cons_False; [by apply IH|].
  simpl. rewrite Hr. by rewrite andb_false_r.
Qed.

(** Backfill does not move the local head of any album: the latest local
    update, to which the next local publish chains, is the same before and
    after a chain walk. *)
Theorem handleHash_keeps_local_heads (fuel : nat) (hash aid : string)
    (t : TextileNode) (b : trepo.PhotoAlbum) :
  let t' := (handleHash ext fuel hash aid t).1.2 in
  trepo.GetPhotos EmptyString 1 (trepo.album_is_and_local (trepo.Id b)) (Datastore t') =
  trepo.GetPhotos EmptyString 1 (trepo.album_is_and_local (trepo.Id b)) (Datastore t) /\
  last_local b t' = last_local b t.
Proof.
  assert (exists new,
    trepo.photos (Datastore (handleHash ext fuel hash aid t).1.2) =
      new ++ trepo.photos (Datastore t) /\
    Forall (fun r => trepo.IsLocal r = false) new) as (new & Hph & Hall).
  { destruct (trepo.GetAlbum aid (Datastore t)) as [a|] eqn:Ha.
    - destruct (handleHash_effects ext fuel aid a hash t Ha)
        as (new & p & -> & _ & Hall & _).
      exists (reverse new). split; [done|]. apply Forall_reverse.
      eapply Forall_impl; [exact Hall|]. by intros x (_ & Hx & _).
    - rewrite handleHash_no_album by done. exists []. by split. }
  assert (trepo.GetPhotos EmptyString 1 (trepo.album_is_and_local (trepo.Id b))
            (Datastore (handleHash ext fuel hash aid t).1.2) =
          trepo.GetPhotos EmptyString 1 (trepo.album_is_and_local (trepo.Id b))
            (Datastore t)) as HG.
  { unfold trepo.GetPhotos. rewrite Hph. by rewrite filter_local_remote by eauto. }
  split; [exact HG|]. unfold last_local. by rewrite HG.
Qed.

Lemma notify_all_room (a : trepo.PhotoAlbum) (recs : list trepo.PhotoSet)
    (c : chan ThreadUpdate) :
  delivered (notify_all a recs c) =
    delivered c ++ take (room c) (update_of a <$> recs) /\
  room (notify_all a recs c) = room c - length recs.
Proof.
  revert c. induction recs as [|r recs IH]; intros c.
  - simpl. rewrite take_nil, app_nil_r. split; [done|lia].
  - change (notify_all a (r :: recs) c) with
      (notify_all a recs (send_or_drop c (update_of a r))).
    destruct (IH (send_or_drop c (update_of a r))) as [Hd Hr]. rewrite Hd, Hr.
    unfold send_or_drop. destruct (room c) as [|n] eqn:Hc; simpl; rewrite ?Hc.
    + done.
    + by rewrite <- app_assoc.
Qed.

(** The listener is offered the records that this call put in the index,
    one update each, in the order of the walk, and gets as many of them as
    it has room for; nothing is sent for a record that was indexed already. *)
Theorem handleHash_notifies_what_it_indexes (fuel : nat) (hash aid : string)
    (a : trepo.PhotoAlbum) (t : TextileNode) :
  trepo.GetAlbum aid (Datastore t) = Some a ->
  let t' := (handleHash ext fuel hash aid t).1.2 in
  exists new,
    trepo.photos (Datastore t') = reverse new ++ trepo.photos (Datastore t) /\
    delivered (datac t') =
      delivered (datac t) ++ take (room (datac t)) (update_of a <$> new) /\
    room (datac t') = room (datac t) - length new.
Proof.
  intros Ha. destruct (handleHash_effects ext fuel aid a hash t Ha) as (new & p & -> & _).
  exists new. simpl. split; [done|]. apply notify_all_room.
Qed.

End WalkProperties.

Lemma handleHash_notifies_what_it_indexes_witness :
  let t' := (handleHash Demo.ext 3 "Qm2" "thread1" Demo.node).1.2 in
  exists new,
    trepo.photos (Datastore t') = reverse new ++ trepo.photos (Datastore Demo.node) /\
    delivered (datac t') =
      delivered (datac Demo.node) ++
      take (room (datac Demo.node)) (update_of Demo.album1 <$> new) /\
    room (datac t') = room (datac Demo.node) - length new.
Proof.
  apply (handleHash_notifies_what_it_indexes Demo.ext 3 "Qm2" "thread1" Demo.album1
           Demo.node).
  reflexivity.
Defined.

(** ** A walk that fails on the way *)

Section FailedWalk.

Variable ext : External.

Lemma pinPath_not_pinnable (path : string) (t : TextileNode) :
  pinnable ext path = false ->
  exists e l, pinPath ext path false t = (Some e, t, l).
Proof.
  unfold pinnable, pinPath. destruct (ParsePath ext path) as [ip|e].
  - destruct (PinAdd ext ip false) as [e|]; [|discriminate]. eauto.
  - unfold_monad. eauto.
Qed.

(** A bundle whose root cannot be pinned: the error, and the node as it
    was. *)
Lemma handleHash_root_not_pinnable (fuel : nat) (hash aid : string)
    (a : trepo.PhotoAlbum) (t : TextileNode) :
  trepo.GetAlbum aid (Datastore t) = Some a ->
  hash <> EmptyString ->
  trepo.GetPhoto hash (Datastore t) = None ->
  pinnable ext hash = false ->
  exists e l, handleHash ext (S fuel) hash aid t = (Returns (Some e), t, l).
Proof.
  intros Ha Hne Hp Hpin.
  destruct (pinPath_not_pinnable hash t Hpin) as (e & l & E).
  exists e. eexists. simpl.
  eapply bind_eq; [by apply hop_check_proceed|]. cbv beta iota.
  eapply bind_eq.
  { unfold hop_fetch. eapply bind_eq; [reflexivity|].
    eapply bind_eq; [exact E|]. reflexivity. }
  reflexivity.
Qed.

(** The walk does not undo and does not retry.  When the bundle under the
    announced hash is read and indexed and the bundle its back-pointer names
    cannot be pinned, handleHash returns the error with the newer record
    left in the index; an announcement of the same hash afterwards finds it
    indexed and returns nil without trying the older bundle again. *)
Theorem handleHash_failed_walk_is_kept (fuel fuel' : nat) (aid : string)
    (a : trepo.PhotoAlbum) (r : trepo.PhotoSet) (t : TextileNode) :
  Online t = true ->
  trepo.GetAlbum aid (Datastore t) = Some a ->
  trepo.Cid r <> EmptyString ->
  trepo.GetPhoto (trepo.Cid r) (Datastore t) = None ->
  trepo.AlbumID r = aid -> trepo.IsLocal r = false ->
  stored ext a r ->
  trepo.LastCid r <> EmptyString ->
  trepo.LastCid r <> trepo.Cid r ->
  trepo.GetPhoto (trepo.LastCid r) (Datastore t) = None ->
  pinnable ext (trepo.LastCid r) = false ->
  exists e p l l',
    handleHash ext (S (S fuel)) (trepo.Cid r) aid t =
      (Returns (Some e), after_hop a r p t, l) /\
    trepo.GetPhoto (trepo.Cid r) (Datastore (after_hop a r p t)) = Some r /\
    trepo.GetPhoto (trepo.LastCid r) (Datastore (after_hop a r p t)) = None /\
    handleHash ext (S fuel') (trepo.Cid r) aid (after_hop a r p t) =
      (Returns None, after_hop a r p t, l').
Proof.
  intros Hon Ha Hne Hp Hid Hloc Hst Hlne Hdiff Hlp Hpin.
  destruct (handleHash_hop ext (S fuel) aid a r t) as (p & l & E); try done.
  assert (trepo.GetPhoto (trepo.Cid r) (Datastore (after_hop a r p t)) = Some r) as Hr.
  { unfold trepo.GetPhoto. simpl. by rewrite String.eqb_refl. }
  assert (trepo.GetPhoto (trepo.LastCid r) (Datastore (after_hop a r p t)) = None) as Hl.
  { rewrite GetPhoto_after_hop; done. }
  destruct (handleHash_root_not_pinnable fuel (trepo.LastCid r) aid a
              (after_hop a r p t)) as (e & l2 & E2); try done.
  exists e, p, (l ++ l2). eexists. split_and!; try done.
  - by rewrite E, E2.
  - assert (trepo.GetAlbum aid (Datastore (after_hop a r p t)) = Some a) as Ha'
      by exact Ha.
    simpl. by rewrite (bind_run _ _ _ _ _ _ (hop_check_indexed _ _ _ _ _ Ha' Hne Hr)).
Qed.

End FailedWalk.

Lemma Demo2_head_stored : stored Demo2.ext Demo.album1 Demo2.head.
Proof.
  unfold stored. simpl.
  repeat split; try discriminate; try reflexivity; eexists; split; reflexivity.
Defined.

Lemma handleHash_failed_walk_is_kept_witness :
  exists e p l l',
    handleHash Demo2.ext 2 "Qm5" "thread1" Demo.node =
      (Returns (Some e), after_hop Demo.album1 Demo2.head p Demo.node, l) /\
    trepo.GetPhoto "Qm5" (Datastore (after_hop Demo.album1 Demo2.head p Demo.node))
      = Some Demo2.head /\
    trepo.GetPhoto "Qm4" (Datastore (after_hop Demo.album1 Demo2.head p Demo.node))
      = None /\
    handleHash Demo2.ext 1 "Qm5" "thread1" (after_hop Demo.album1 Demo2.head p Demo.node)
      = (Returns None, after_hop Demo.album1 Demo2.head p Demo.node, l').
Proof.
  apply (handleHash_failed_walk_is_kept Demo2.ext 0 0 "thread1" Demo.album1 Demo2.head
           Demo.node); try reflexivity; try discriminate.
  exact Demo2_head_stored.
Defined.

(** ** The walk and its listener *)

Section Listener.

Variable ext : External.

Lemma apart_ret {A : Type} (a : A) : apart_from_datac (ret a).
Proof. intros c t. by exists c. Qed.

Lemma apart_logf (lv : level) (f : string) (args : list string) :
  apart_from_datac (logf lv f args).
Proof. intros c t. by exists c. Qed.

Lemma apart_gets {A : Type} (g : TextileNode -> A) :
  (forall c t, g (set_datac c t) = g t) -> apart_from_datac (gets g).
Proof. intros Hg c t. exists c. unfold gets. by rewrite Hg. Qed.

Lemma apart_modify (f : TextileNode -> TextileNode) :
  (forall c t, exists c', f (set_datac c t) = set_datac c' (f t)) ->
  apart_from_datac (modify f).
Proof. intros Hf c t. destruct (Hf c t) as [c' E]. exists c'. unfold modify. by rewrite E. Qed.

Lemma apart_bind {A B : Type} (m : M A) (k : A -> M B) :
  apart_from_datac m -> (forall a, apart_from_datac (k a)) ->
  apart_from_datac (bind m k).
Proof.
  intros Hm Hk c t. unfold bind. destruct (Hm c t) as [c1 ->].
  destruct (m t) as [[a t1] l1]. destruct (Hk a c1 t1) as [c2 ->].
  destruct (k a t1) as [[b t2] l2]. by exists c2.
Qed.

Lemma apart_Photos_Put (set : trepo.PhotoSet) : apart_from_datac (Photos_Put set).
Proof.
  intros c t. exists c. unfold Photos_Put. simpl.
  by destruct (trepo.PutPhoto set (Datastore t)).
Qed.

Ltac apart_step :=
  first
    [ apply apart_ret
    | apply apart_logf
    | apply apart_Photos_Put
    | apply apart_gets; intros; reflexivity
    | apply apart_modify; intros ? ?; eexists; reflexivity
    | apply apart_bind; [|intros ?]
    | match goal with
      | |- apart_from_datac (match ?x with _ => _ end) => destruct x
      | |- apart_from_datac (if ?x then _ else _) => destruct x
      end ].

Lemma apart_pinPath (path : string) (recursive : bool) :
  apart_from_datac (pinPath ext path recursive).
Proof. unfold pinPath. repeat apart_step. Qed.

Lemma apart_GetFile (path : string) (album : option trepo.PhotoAlbum) :
  apart_from_datac (GetFile ext path album).
Proof. unfold GetFile, log_Error. repeat apart_step. Qed.

Lemma apart_hop_check (hash aid : string) : apart_from_datac (hop_check hash aid).
Proof. unfold hop_check. repeat apart_step. Qed.

Lemma apart_hop_fetch (hash : string) (a : trepo.PhotoAlbum) :
  apart_from_datac (hop_fetch ext hash a).
Proof.
  unfold hop_fetch, GetMetaData, GetLastHash, GetCaption.
  repeat first [apply apart_pinPath | apply apart_GetFile | apart_step].
Qed.

Lemma apart_hop_index (hash aid : string) (a : trepo.PhotoAlbum)
    (md : photos.Metadata) (last caption : string) :
  apart_from_datac (hop_index hash aid a md last caption).
Proof. unfold hop_index. repeat apart_step. Qed.

(** The walk does not look at the update channel.  Run on two nodes that
    differ only in what the channel holds (nobody listening, a listener
    with room, a full buffer), handleHash returns the same outcome and
    writes the same log lines, and the two nodes differ again in the
    channel only: the same records are indexed and the same paths pinned. *)
Theorem handleHash_ignores_the_listener (fuel : nat) (hash aid : string) :
  apart_from_datac (handleHash ext fuel hash aid).
Proof.
  revert hash. induction fuel as [|fuel IH]; intros hash; simpl.
  - apply apart_ret.
  - apply apart_bind; [apply apart_hop_check|]. intros [e|a]; [apply apart_ret|].
    apply apart_bind; [apply apart_hop_fetch|]. intros [e|[[md last] cap]]; [apply apart_ret|].
    apply apart_bind; [apply apart_hop_index|]. intros [e|last']; [apply apart_ret|].
    apply IH.
Qed.

End Listener.

(** ** The gateway and its tokens *)

Section Gateway.

Variable ext : External.

(** GetFile reads the node's online flag and datastore and nothing else. *)
Lemma GetFile_reads (path : string) (album : option trepo.PhotoAlbum)
    (t t' : TextileNode) :
  Online t = Online t' -> Datastore t = Datastore t' ->
  (GetFile ext path album t).1.1 = (GetFile ext path album t').1.1.
Proof.
  intros Ho Hd. unfold GetFile, LoadPhotoAndAlbum. unfold_monad. cbv beta.
  rewrite <- Ho. destruct (Online t) eqn:Hon; simpl; [|reflexivity].
  destruct (getDataAtPath ext path) as [cb|e]; [|reflexivity].
  destruct (ParsePath ext path) as [ip|e]; [|reflexivity].
  destruct (length (Split ip "/") <? 3); [reflexivity|].
  destruct album as [a|]; simpl; [by destruct (Decrypt ext (trepo.Key a) cb)|].
  rewrite <- Ho, <- Hd, Hon. simpl.
  repeat (case_match; simpl in *; simplify_eq); reflexivity.
Qed.

Lemma GetHashRequest_run (hash : string) (t : TextileNode) :
  GetHashRequest ext hash t =
    ({| Token := ksuid_New ext (entropy t); Protocol := "http";
        Host := GatewayProxy_Addr t |},
     set_HashPasses (<[hash := ksuid_New ext (entropy t)]> (HashPasses t))
       (set_entropy (S (entropy t)) t), []).
Proof. reflexivity. Qed.

(** The handler on a request that carries a password and a path of three
    segments or more. *)
Lemma gatewayHandler_checked (r : Request) (u pw : string) (t : TextileNode) :
  BasicAuth r = Some (u, pw) ->
  3 <= length (Split (URL_Path r) "/") ->
  (gatewayHandler ext r t).1.1 =
    (if String.eqb pw (default EmptyString (HashPasses t !! ci_of (URL_Path r)))
     then served (GetFile ext (URL_Path r) None t).1.1
     else refused).
Proof.
  intros Hb Hlen. unfold gatewayHandler. unfold_monad. simpl. rewrite Hb.
  assert ((length (Split (URL_Path r) "/") <? 3) = false) as ->
    by (apply Nat.ltb_ge; lia).
  fold (ci_of (URL_Path r)).
  destruct (String.eqb pw _); simpl; [|reflexivity].
  by destruct (GetFile ext (URL_Path r) None t) as [[[b|e] t1] l1].
Qed.

(** A token that was issued opens the gateway for its content id.  After
    GetHashRequest for an id, a request for that id that presents the token
    is never refused: it is answered with the decrypted file, or with
    status 400 when GetFile fails, whatever tokens the node held before. *)
Theorem gateway_serves_issued_token (hash u : string) (r : Request) (t : TextileNode) :
  3 <= length (Split (URL_Path r) "/") ->
  ci_of (URL_Path r) = hash ->
  BasicAuth r = Some (u, Token (GetHashRequest ext hash t).1.1) ->
  (gatewayHandler ext r (GetHashRequest ext hash t).1.2).1.1 =
    served (GetFile ext (URL_Path r) None t).1.1.
Proof.
  intros Hlen Hci. rewrite GetHashRequest_run. simpl. intros Hb.
  rewrite (gatewayHandler_checked r u _ _ Hb Hlen). simpl.
  rewrite Hci, lookup_insert_eq. simpl. rewrite String.eqb_refl.
  f_equal. by apply GetFile_reads.
Qed.

(** A second token for the same id takes the place of the first: when the
    generator gives two different tokens, a request that presents the first
    after the second was issued is refused with status 401. *)
Theorem gateway_reissue_revokes (hash u : string) (r : Request) (t : TextileNode) :
  ksuid_New ext (entropy t) <> ksuid_New ext (S (entropy t)) ->
  3 <= length (Split (URL_Path r) "/") ->
  ci_of (URL_Path r) = hash ->
  BasicAuth r = Some (u, Token (GetHashRequest ext hash t).1.1) ->
  (gatewayHandler ext r
     (GetHashRequest ext hash (GetHashRequest ext hash t).1.2).1.2).1.1 = refused.
Proof.
  intros Hne Hlen Hci. rewrite !GetHashRequest_run. simpl. intros Hb.
  rewrite (gatewayHandler_checked r u _ _ Hb Hlen). simpl.
  rewrite Hci, lookup_insert_eq. simpl.
  apply String.eqb_neq in Hne. by rewrite Hne.
Qed.

(** An id for which no token was issued is not closed: the handler compares
    the password with the map's zero value, so a request with the empty
    password is let through to GetFile and any other password is refused. *)
Theorem gateway_unissued_id (u pw : string) (r : Request) (t : TextileNode) :
  3 <= length (Split (URL_Path r) "/") ->
  HashPasses t !! ci_of (URL_Path r) = None ->
  BasicAuth r = Some (u, pw) ->
  (gatewayHandler ext r t).1.1 =
    (if String.eqb pw EmptyString
     then served (GetFile ext (URL_Path r) None t).1.1
     else refused).
Proof.
  intros Hlen Hnone Hb. rewrite (gatewayHandler_checked r u pw t Hb Hlen).
  by rewrite Hnone.
Qed.

(** Issuing a token for one id changes the answer to no request for
    another id. *)
Theorem GetHashRequest_other_ids (hash : string) (r : Request) (t : TextileNode) :
  ci_of (URL_Path r) <> hash ->
  (gatewayHandler ext r (GetHashRequest ext hash t).1.2).1.1 =
  (gatewayHandler ext r t).1.1.
Proof.
  intros Hne. rewrite GetHashRequest_run. cbn [fst snd].
  destruct (BasicAuth r) as [[u pw]|] eqn:Hb.
  2:{ unfold gatewayHandler. unfold_monad. by rewrite Hb. }
  destruct (length (Split (URL_Path r) "/") <? 3) eqn:El.
  { unfold gatewayHandler. unfold_monad. by rewrite Hb, El. }
  apply Nat.ltb_ge in El.
  rewrite !(gatewayHandler_checked r u pw _ Hb El).
  cbn [HashPasses set_HashPasses]. rewrite lookup_insert_ne by congruence.
  destruct (String.eqb pw _); [|reflexivity].
  f_equal. by apply GetFile_reads.
Qed.

(** What GetFile gives when no album is passed. *)
Lemma GetFile_Ok_inv (path : string) (t : TextileNode) (b : bytes) :
  (GetFile ext path None t).1.1 = Ok b ->
  Online t = true /\
  exists ip cb ph a,
    ParsePath ext path = Ok ip /\ Cat ext ip = Ok cb /\
    3 <= length (Split ip "/") /\
    trepo.GetPhoto (nth 2 (Split ip "/") EmptyString) (Datastore t) = Some ph /\
    trepo.GetAlbum (trepo.AlbumID ph) (Datastore t) = Some a /\
    Decrypt ext (trepo.Key a) cb = Ok b.
Proof.
  unfold GetFile, getDataAtPath, LoadPhotoAndAlbum. unfold_monad. simpl.
  destruct (Online t) eqn:Hon; simpl; [|discriminate].
  destruct (ParsePath ext path) as [ip|e]; [|discriminate].
  destruct (Cat ext ip) as [cb|e] eqn:Ec; [|discriminate].
  destruct (length (Split ip "/") <? 3) eqn:El; [discriminate|].
  apply Nat.ltb_ge in El. rewrite Hon. simpl.
  destruct (trepo.GetPhoto _ (Datastore t)) as [ph|] eqn:Ep; [|simpl; discriminate].
  destruct (trepo.GetAlbum _ (Datastore t)) as [a|] eqn:Ea; [|simpl; discriminate].
  simpl. destruct (Decrypt ext (trepo.Key a) cb) as [b'|e] eqn:Ed; [|simpl; discriminate].
  simpl. intros [= ->]. split; [done|]. exists ip, cb, ph, a. by split_and!.
Qed.

(** The gateway gives out nothing but what it was asked to open.  A
    response with a body comes from a request whose password is the token
    held for the id of its path, on a node that is online; the body is the
    object under the path, decrypted with the key of the album in which the
    path's root hash is indexed. *)
Theorem gateway_body_is_opened (r : Request) (t : TextileNode) :
  Body (gatewayHandler ext r t).1.1 <> EmptyString ->
  Online t = true /\
  exists u ip cb ph a,
    BasicAuth r = Some (u, default EmptyString (HashPasses t !! ci_of (URL_Path r))) /\
    ParsePath ext (URL_Path r) = Ok ip /\ Cat ext ip = Ok cb /\
    trepo.GetPhoto (nth 2 (Split ip "/") EmptyString) (Datastore t) = Some ph /\
    trepo.GetAlbum (trepo.AlbumID ph) (Datastore t) = Some a /\
    Decrypt ext (trepo.Key a) cb = Ok (Body (gatewayHandler ext r t).1.1).
Proof.
  destruct (BasicAuth r) as [[u pw]|] eqn:Hb.
  2:{ unfold gatewayHandler. unfold_monad. rewrite Hb. simpl. congruence. }
  destruct (length (Split (URL_Path r) "/") <? 3) eqn:El.
  { unfold gatewayHandler. unfold_monad. rewrite Hb, El. simpl. congruence. }
  apply Nat.ltb_ge in El.
  rewrite (gatewayHandler_checked r u pw t Hb El).
  destruct (String.eqb pw _) eqn:Ep; [|simpl; congruence].
  apply String.eqb_eq in Ep. subst pw.
  destruct (GetFile ext (URL_Path r) None t).1.1 as [b|e] eqn:Eg; [|simpl; congruence].
  simpl. intros _.
  destruct (GetFile_Ok_inv _ _ _ Eg) as (Hon & ip & cb & ph & a & H1 & H2 & _ & H3 & H4 & H5).
  split; [done|]. exists u, ip, cb, ph, a. by split_and!.
Qed.

End Gateway.

Lemma gateway_serves_issued_token_witness :
  (gatewayHandler Demo.ext (Demo.get_photo "ksuid-0")
     (GetHashRequest Demo.ext "Qm1/photo" Demo.node3).1.2).1.1 =
  served (GetFile Demo.ext "/ipfs/Qm1/photo" None Demo.node3).1.1.
Proof.
  apply (gateway_serves_issued_token Demo.ext "Qm1/photo" "TextileNode"
           (Demo.get_photo "ksuid-0") Demo.node3).
  - vm_compute. lia.
  - reflexivity.
  - reflexivity.
Defined.

Lemma gateway_reissue_revokes_witness :
  (gatewayHandler Demo.ext (Demo.get_photo "ksuid-0")
     (GetHashRequest Demo.ext "Qm1/photo"
        (GetHashRequest Demo.ext "Qm1/photo" Demo.node3).1.2).1.2).1.1 = refused.
Proof.
  apply (gateway_reissue_revokes Demo.ext "Qm1/photo" "TextileNode"
           (Demo.get_photo "ksuid-0") Demo.node3).
  - vm_compute. discriminate.
  - vm_compute. lia.
  - reflexivity.
  - reflexivity.
Defined.

Lemma gateway_unissued_id_witness :
  (gatewayHandler Demo.ext (Demo.get_photo EmptyString) Demo.node3).1.1 =
  served (GetFile Demo.ext "/ipfs/Qm1/photo" None Demo.node3).1.1.
Proof.
  apply (gateway_unissued_id Demo.ext "TextileNode" EmptyString
           (Demo.get_photo EmptyString) Demo.node3).
  - vm_compute. lia.
  - reflexivity.
  - reflexivity.
Defined.

Lemma GetHashRequest_other_ids_witness :
  (gatewayHandler Demo.ext (Demo.get_photo EmptyString)
     (GetHashRequest Demo.ext "Qm2/photo" Demo.node3).1.2).1.1 =
  (gatewayHandler Demo.ext (Demo.get_photo EmptyString) Demo.node3).1.1.
Proof.
  apply (GetHashRequest_other_ids Demo.ext "Qm2/photo" (Demo.get_photo EmptyString)
           Demo.node3).
  vm_compute. discriminate.
Defined.

Lemma gateway_body_is_opened_witness :
  Online Demo.node3 = true /\
  exists u ip cb ph a,
    BasicAuth (Demo.get_photo EmptyString) =
      Some (u, default EmptyString
                 (HashPasses Demo.node3 !! ci_of (URL_Path (Demo.get_photo EmptyString)))) /\
    ParsePath Demo.ext (URL_Path (Demo.get_photo EmptyString)) = Ok ip /\
    Cat Demo.ext ip = Ok cb /\
    trepo.GetPhoto (nth 2 (Split ip "/") EmptyString) (Datastore Demo.node3) = Some ph /\
    trepo.GetAlbum (trepo.AlbumID ph) (Datastore Demo.node3) = Some a /\
    Decrypt Demo.ext (trepo.Key a) cb =
      Ok (Body (gatewayHandler Demo.ext (Demo.get_photo EmptyString) Demo.node3).1.1).
Proof.
  apply (gateway_body_is_opened Demo.ext (Demo.get_photo EmptyString) Demo.node3).
  vm_compute. discriminate.
Defined.

(** ** Local publish and republish *)

Section LocalUpdates.

Variable ext : External.

(** A local publish that returns a request has put one record on top of the
    index: local, in the album that was named, with the content id that
    photos.Add gave and with the latest local update of the album before the
    call as its back-pointer.  The record is then the latest local update of
    the album, so the next publish chains to it.  The goroutine that
    publishes, run where it is started, sends the content id to the topic of
    the album if the bus takes it; if not, the request is returned all the
    same. *)
Theorem AddPhoto_chains_local_updates (path thumb album caption : string)
    (t : TextileNode) (mr : net.MultipartRequest) :
  (AddPhoto ext path thumb album caption t).1.1 = Ok mr ->
  exists a md,
    trepo.GetAlbumByName album (Datastore t) = Some a /\
    trepo.GetPhoto (net.Boundary mr) (Datastore t) = None /\
    trepo.photos (Datastore (AddPhoto ext path thumb album caption t).1.2) =
      {| trepo.Cid := net.Boundary mr; trepo.LastCid := last_local a t;
         trepo.AlbumID := trepo.Id a; trepo.MetaData := md;
         trepo.Caption := caption; trepo.IsLocal := true |}
      :: trepo.photos (Datastore t) /\
    last_local a (AddPhoto ext path thumb album caption t).1.2 = net.Boundary mr /\
    published (AddPhoto ext path thumb album caption t).1.2 =
      match Publish ext (trepo.Id a) (net.Boundary mr) with
      | None => published t ++ [(trepo.Id a, net.Boundary mr)]
      | Some _ => published t
      end.
Proof.
  unfold AddPhoto, Photos_Put, Floodsub_Publish, trepo.PutPhoto, last_local.
  unfold_monad. cbv beta.
  destruct (Online t); simpl; [|discriminate].
  destruct (os_Open ext path) as [p|e]; [|discriminate].
  destruct (os_Open ext thumb) as [th|e]; [|discriminate].
  destruct (trepo.GetAlbumByName album (Datastore t)) as [a|]; [|discriminate].
  destruct (trepo.GetPhotos EmptyString 1 _ (Datastore t)) as [|r0 rs] eqn:Er;
    destruct (trepo.GetUsername (Datastore t)) as [un|eu]; simpl;
    (destruct (photos_Add ext _ p th _ _ caption) as [[[mr' md]|e] pins];
       simpl; [|discriminate]);
    (destruct (trepo.GetPhoto (net.Boundary mr') (Datastore t)) eqn:Ep;
       simpl; [discriminate|]);
    (destruct (Publish ext (trepo.Id a) (net.Boundary mr')) eqn:Epub; simpl);
    intros [= ->]; exists a, md;
    (split_and!; try done;
     first
       [ by rewrite Er
       | unfold trepo.GetPhotos; simpl;
         rewrite filter_cons_True by (simpl; by rewrite String.eqb_refl); done
       | by rewrite Epub ]).
Qed.

(** republish_range publishes and does nothing else: the node is as it was
    but for the messages that went out, and each of them carries the latest
    local update of one of the albums to the topic of that album. *)
Lemma republish_range_sound (albums : list trepo.PhotoAlbum) (t : TextileNode) :
  exists sent,
    (republish_range ext albums t).1.2 = set_published (published t ++ sent) t /\
    Forall (fun m => exists a r rest,
              a ∈ albums /\
              trepo.GetPhotos EmptyString 1 (trepo.album_is_and_local (trepo.Id a))
                (Datastore t) = r :: rest /\
              m = (trepo.Id a, trepo.Cid r)) sent.
Proof.
  revert t. induction albums as [|a albums IH]; intros t.
  { exists []. simpl. rewrite app_nil_r. split; [by destruct t|constructor]. }
  simpl. unfold Floodsub_Publish. unfold_monad. cbv beta.
  destruct (trepo.GetPhotos EmptyString 1 _ (Datastore t)) as [|r rest] eqn:Er.
  { exists []. simpl. rewrite app_nil_r. split; [by destruct t|constructor]. }
  destruct (Publish ext (trepo.Id a) (trepo.Cid r)) as [e|]; simpl.
  - destruct (IH t) as (sent & E & Hs).
    destruct (republish_range ext albums t) as [[u t1] l1]. simpl in *.
    exists sent. split; [done|].
    eapply Forall_impl; [exact Hs|]. intros m (b & r' & rest' & Hb & Hr & ->).
    exists b, r', rest'. split_and!; try done. by right.
  - destruct (IH (set_published (published t ++ [(trepo.Id a, trepo.Cid r)]) t))
      as (sent & E & Hs).
    destruct (republish_range ext albums _) as [[u t1] l1]. simpl in *.
    exists ((trepo.Id a, trepo.Cid r) :: sent). split.
    + rewrite E. unfold set_published. simpl. by rewrite <- app_assoc.
    + constructor.
      * exists a, r, rest. split_and!; try done. by left.
      * eapply Forall_impl; [exact Hs|]. intros m (b & r' & rest' & Hb & Hr & ->).
        exists b, r', rest'. split_and!; try done. by right.
Qed.

(** republishLatestUpdates announces nothing but the latest local updates
    of the albums the datastore knows, each to the topic of its album, and
    leaves the rest of the node as it was. *)
Theorem republishLatestUpdates_sound (t : TextileNode) :
  exists sent,
    (republishLatestUpdates ext t).1.2 = set_published (published t ++ sent) t /\
    Forall (fun m => exists a r rest,
              a ∈ trepo.GetAlbums (Datastore t) /\
              trepo.GetPhotos EmptyString 1 (trepo.album_is_and_local (trepo.Id a))
                (Datastore t) = r :: rest /\
              m = (trepo.Id a, trepo.Cid r)) sent.
Proof.
  unfold republishLatestUpdates. unfold_monad. cbv beta.
  destruct (republish_range_sound (trepo.GetAlbums (Datastore t)) t) as (sent & E & Hs).
  exists sent. split; [|exact Hs].
  by destruct (republish_range ext _ t) as [[u t1] l1].
Qed.


End LocalUpdates.

Lemma AddPhoto_chains_local_updates_witness :
  exists a md,
    trepo.GetAlbumByName "album1" (Datastore Demo.node) = Some a /\
    trepo.GetPhoto "Qm7" (Datastore Demo.node) = None /\
    trepo.photos (Datastore (AddPhoto Demo.ext_adding "/tmp/a.jpg" "/tmp/a_thumb.jpg"
                               "album1" "a caption" Demo.node).1.2) =
      {| trepo.Cid := "Qm7"; trepo.LastCid := last_local a Demo.node;
         trepo.AlbumID := trepo.Id a; trepo.MetaData := md;
         trepo.Caption := "a caption"; trepo.IsLocal := true |}
      :: trepo.photos (Datastore Demo.node) /\
    last_local a (AddPhoto Demo.ext_adding "/tmp/a.jpg" "/tmp/a_thumb.jpg"
                    "album1" "a caption" Demo.node).1.2 = "Qm7" /\
    published (AddPhoto Demo.ext_adding "/tmp/a.jpg" "/tmp/a_thumb.jpg"
                 "album1" "a caption" Demo.node).1.2 =
      match Publish Demo.ext_adding (trepo.Id a) "Qm7" with
      | None => published Demo.node ++ [(trepo.Id a, "Qm7")]
      | Some _ => published Demo.node
      end.
Proof.
  apply (AddPhoto_chains_local_updates Demo.ext_adding "/tmp/a.jpg" "/tmp/a_thumb.jpg"
           "album1" "a caption" Demo.node {| net.Boundary := "Qm7" |}).
  reflexivity.
Defined.


(** ** The payload of a thread message *)

Lemma Split_field (h junk : string) :
  content_id h -> Split (h +:+ ":" +:+ junk) ":" = h :: Split junk ":".
Proof.
  unfold content_id. induction h as [|c h IH]; [reflexivity|].
  simpl. destruct (Ascii.eqb c ":").
  - destruct (Split_cons h ":") as (x & xs & ->). simpl. discriminate.
  - destruct (Split_cons h ":") as (x & xs & E). rewrite E in *. simpl.
    intros Hlen. by rewrite (IH Hlen).
Qed.

Section Payload.

Variable ext : External.

(** handleRoomUpdate reads one field of the payload.  Whatever follows the
    content id after a further colon is dropped: the message is handled,
    log lines included, as the message without it, with the relay prefix
    and without. *)
Theorem handleRoomUpdate_reads_one_field (fuel : nat) (from h junk aid : string)
    (t : TextileNode) :
  content_id h -> h <> "relay" ->
  handleRoomUpdate ext fuel {| GetFrom := from; GetData := h +:+ ":" +:+ junk |} aid t =
  handleRoomUpdate ext fuel {| GetFrom := from; GetData := h |} aid t /\
  handleRoomUpdate ext fuel
    {| GetFrom := from; GetData := "relay:" +:+ h +:+ ":" +:+ junk |} aid t =
  handleRoomUpdate ext fuel {| GetFrom := from; GetData := "relay:" +:+ h |} aid t.
Proof.
  intros Hh Hne. unfold handleRoomUpdate. cbn [GetFrom GetData].
  rewrite !Split_relay, (Split_field h junk Hh), (Split_no_sep h ":" Hh).
  destruct (Split_cons junk ":") as (x & xs & ->).
  apply String.eqb_neq in Hne. cbn [length nth Nat.ltb Nat.leb andb].
  rewrite Hne. by split.
Qed.

End Payload.

Lemma handleRoomUpdate_reads_one_field_witness :
  handleRoomUpdate Demo.ext 3
    {| GetFrom := "QmPeer"; GetData := "Qm2" +:+ ":" +:+ "more:fields" |}
    "thread1" Demo.node =
  handleRoomUpdate Demo.ext 3 {| GetFrom := "QmPeer"; GetData := "Qm2" |}
    "thread1" Demo.node /\
  handleRoomUpdate Demo.ext 3
    {| GetFrom := "QmPeer"; GetData := "relay:" +:+ "Qm2" +:+ ":" +:+ "more:fields" |}
    "thread1" Demo.node =
  handleRoomUpdate Demo.ext 3 {| GetFrom := "QmPeer"; GetData := "relay:" +:+ "Qm2" |}
    "thread1" Demo.node.
Proof.
  apply (handleRoomUpdate_reads_one_field Demo.ext 3 "QmPeer" "Qm2" "more:fields"
           "thread1" Demo.node).
  - reflexivity.
  - discriminate.
Defined.

(** ** Joining a thread *)

Section JoinFacts.

Variable crypto : Crypto.
Variable NBitsForKeypair : string.
Variable Ping : trepo.Datastore -> error.
Variable db_Create : result trepo.Datastore.

Lemma datastore_only_ret {A : Type} (a : A) : datastore_only (ret a).
Proof. intros t. exists (Datastore t). simpl. by rewrite set_Datastore_id. Qed.

Lemma datastore_only_logf (lv : level) (f : string) (args : list string) :
  datastore_only (logf lv f args).
Proof. intros t. exists (Datastore t). simpl. by rewrite set_Datastore_id. Qed.

Lemma datastore_only_gets {A : Type} (g : TextileNode -> A) : datastore_only (gets g).
Proof. intros t. exists (Datastore t). simpl. by rewrite set_Datastore_id. Qed.

Lemma datastore_only_bind {A B : Type} (m : M A) (k : A -> M B) :
  datastore_only m -> (forall a, datastore_only (k a)) -> datastore_only (bind m k).
Proof.
  intros Hm Hk t. unfold bind. destruct (Hm t) as [ds1 E1].
  destruct (m t) as [[a t1] l1]. simpl in E1. subst t1.
  destruct (Hk a (set_Datastore ds1 t)) as [ds2 E2].
  destruct (k a _) as [[b t2] l2]. simpl in *. subst t2. by exists ds2.
Qed.

Ltac datastore_only_step :=
  first
    [ apply datastore_only_ret
    | apply datastore_only_logf
    | apply datastore_only_gets
    | apply datastore_only_bind; [|intros ?]
    | match goal with
      | |- datastore_only (match ?x with _ => _ end) => destruct x
      | |- datastore_only (if ?x then _ else _) => destruct x
      end ].

Lemma datastore_only_touchDB : datastore_only (DB.touchDB Ping db_Create).
Proof.
  intros t. unfold DB.touchDB. unfold_monad. simpl.
  destruct (Ping (Datastore t)); [|exists (Datastore t); simpl; by rewrite set_Datastore_id].
  destruct db_Create as [ds|e]; simpl; [by exists ds|].
  exists (Datastore t). by rewrite set_Datastore_id.
Qed.

Lemma datastore_only_RegisterAlbum (mnemonic name : string) :
  datastore_only (RegisterAlbum crypto mnemonic name).
Proof.
  unfold RegisterAlbum, albumFromMnemonic.
  apply datastore_only_bind; [repeat datastore_only_step|].
  intros [a|e]; [|apply datastore_only_ret].
  intros t. destruct (trepo.PutAlbum a (Datastore t)) as [e ds]. by exists ds.
Qed.

Lemma CreateAlbum_phrase (mnemonic name : string) :
  mnemonic <> EmptyString ->
  CreateAlbum crypto NBitsForKeypair mnemonic name =
    (logf DEBUG "creating a new album: %s" [name] ;;
     logf DEBUG "regenerating Ed25519 keypair from mnemonic phrase for: %s" [name] ;;
     RegisterAlbum crypto mnemonic name)%node.
Proof. intros H. unfold CreateAlbum. apply String.eqb_neq in H. by rewrite H. Qed.

(** The album a phrase gives does not depend on the node, and the
    derivation leaves the node alone. *)
Lemma albumFromMnemonic_run (mnemonic name : string) (t : TextileNode) :
  exists l,
    albumFromMnemonic crypto mnemonic name t =
      ((albumFromMnemonic crypto mnemonic name Demo.node).1.1, t, l).
Proof.
  unfold albumFromMnemonic. unfold_monad.
  repeat case_match; simpl; eauto.
Qed.

Lemma albumFromMnemonic_Name (mnemonic name : string) (t : TextileNode)
    (a : trepo.PhotoAlbum) :
  (albumFromMnemonic crypto mnemonic name t).1.1 = Ok a -> trepo.Name a = name.
Proof.
  unfold albumFromMnemonic. unfold_monad.
  repeat case_match; simpl; try discriminate. by intros [= <-].
Qed.

Lemma GetAlbumByName_app (n : string) (ds : trepo.Datastore) (a : trepo.PhotoAlbum) :
  trepo.GetAlbumByName n ds = None -> trepo.Name a = n ->
  find (fun b => String.eqb (trepo.Name b) n) (trepo.albums ds ++ [a]) = Some a.
Proof.
  unfold trepo.GetAlbumByName. intros Hn Ha.
  induction (trepo.albums ds) as [|b bs IH]; simpl in *.
  - apply String.eqb_eq in Ha. by rewrite Ha.
  - destruct (String.eqb (trepo.Name b) n); [discriminate|]. by apply IH.
Qed.

(** Put of the album registry, when it returns nil: the registry then has,
    under the album's name, an album with the album's id. *)
Lemma PutAlbum_nil (a : trepo.PhotoAlbum) (ds ds' : trepo.Datastore) :
  trepo.PutAlbum a ds = (None, ds') ->
  exists b, trepo.GetAlbumByName (trepo.Name a) ds' = Some b /\ trepo.Id b = trepo.Id a.
Proof.
  unfold trepo.PutAlbum.
  destruct (trepo.GetAlbumByName (trepo.Name a) ds) as [b|] eqn:Eb.
  - destruct (String.eqb (trepo.Id b) (trepo.Id a)) eqn:Ei; [|discriminate].
    intros [= <-]. exists b. split; [done|]. by apply String.eqb_eq.
  - intros [= <-]. exists a. split; [|done].
    unfold trepo.GetAlbumByName at 1. simpl. by apply GetAlbumByName_app.
Qed.

(** Put again, of an album that is there under its name with its id. *)
Lemma PutAlbum_again (a b : trepo.PhotoAlbum) (ds : trepo.Datastore) :
  trepo.GetAlbumByName (trepo.Name a) ds = Some b -> trepo.Id b = trepo.Id a ->
  trepo.PutAlbum a ds = (None, ds).
Proof.
  intros Hb Hi. unfold trepo.PutAlbum. rewrite Hb.
  apply String.eqb_eq in Hi. by rewrite Hi.
Qed.

Lemma RegisterAlbum_nil (mnemonic name : string) (t : TextileNode) :
  (RegisterAlbum crypto mnemonic name t).1.1 = None ->
  exists a b,
    (albumFromMnemonic crypto mnemonic name Demo.node).1.1 = Ok a /\
    trepo.GetAlbumByName name (Datastore (RegisterAlbum crypto mnemonic name t).1.2)
      = Some b /\
    trepo.Id b = trepo.Id a.
Proof.
  unfold RegisterAlbum, bind.
  destruct (albumFromMnemonic_run mnemonic name t) as [l E]. rewrite E.
  destruct ((albumFromMnemonic crypto mnemonic name Demo.node).1.1) as [a|e] eqn:Ea;
    [|discriminate].
  pose proof (albumFromMnemonic_Name _ _ _ _ Ea) as Hn.
  destruct (trepo.PutAlbum a (Datastore t)) as [e ds] eqn:Ep. simpl.
  intros ->. destruct (PutAlbum_nil _ _ _ Ep) as (b & Hb & Hi).
  exists a, b. rewrite Hn in Hb. done.
Qed.

Lemma RegisterAlbum_again (mnemonic name : string) (t : TextileNode)
    (a b : trepo.PhotoAlbum) :
  (albumFromMnemonic crypto mnemonic name Demo.node).1.1 = Ok a ->
  trepo.GetAlbumByName name (Datastore t) = Some b ->
  trepo.Id b = trepo.Id a ->
  (RegisterAlbum crypto mnemonic name t).1.1 = None /\
  (RegisterAlbum crypto mnemonic name t).1.2 = t.
Proof.
  intros Ea Hb Hi. unfold RegisterAlbum, bind.
  destruct (albumFromMnemonic_run mnemonic name t) as [l E]. rewrite E, Ea.
  pose proof (albumFromMnemonic_Name _ _ _ _ Ea) as Hn.
  rewrite (PutAlbum_again a b (Datastore t)) by (by rewrite ?Hn).
  simpl. by rewrite set_Datastore_id.
Qed.

(** Joining a thread draws no random bits and writes to the datastore
    only: the node after JoinThread is the node before with, at most,
    another datastore, so the position in the random source, the tokens, the
    pins and the channel are as they were.  Without a phrase nothing is
    joined: the call returns an error. *)
Theorem JoinThread_draws_nothing (mnemonic name : string) (t : TextileNode) :
  (exists ds,
     (DB.JoinThread crypto NBitsForKeypair Ping db_Create mnemonic name t).1.2
       = set_Datastore ds t) /\
  (DB.JoinThread crypto NBitsForKeypair Ping db_Create EmptyString name t).1.1 <> None.
Proof.
  split.
  - revert t. change (datastore_only
      (DB.JoinThread crypto NBitsForKeypair Ping db_Create mnemonic name)).
    unfold DB.JoinThread, DB.CreateAlbum.
    apply datastore_only_bind; [apply datastore_only_touchDB|]. intros [e|].
    { apply datastore_only_ret. }
    destruct (String.eqb mnemonic EmptyString) eqn:Em; [apply datastore_only_ret|].
    apply String.eqb_neq in Em. rewrite (CreateAlbum_phrase _ _ Em).
    repeat first [ apply datastore_only_touchDB
                 | apply datastore_only_RegisterAlbum
                 | datastore_only_step ].
  - unfold DB.JoinThread, bind.
    destruct (DB.touchDB Ping db_Create t) as [[[e|] t1] l1]; simpl; discriminate.
Qed.

Lemma JoinThread_nil (mnemonic name : string) (t t' : TextileNode) (l : list logline) :
  DB.JoinThread crypto NBitsForKeypair Ping db_Create mnemonic name t = (None, t', l) ->
  mnemonic <> EmptyString /\
  exists a b,
    (albumFromMnemonic crypto mnemonic name Demo.node).1.1 = Ok a /\
    trepo.GetAlbumByName name (Datastore t') = Some b /\
    trepo.Id b = trepo.Id a.
Proof.
  intros H. unfold DB.JoinThread, DB.CreateAlbum in H.
  destruct (String.eqb mnemonic EmptyString) eqn:Em.
  { unfold bind, ret in H.
    destruct (DB.touchDB Ping db_Create t) as [[[e|] t1] l1]; simplify_eq. }
  apply String.eqb_neq in Em. split; [done|].
  rewrite (CreateAlbum_phrase _ _ Em) in H.
  unfold bind, gets, logf, ret in H.
  destruct (DB.touchDB Ping db_Create t) as [[[e|] t1] l1]; cbv beta iota in H;
    [simplify_eq|].
  destruct (trepo.GetAlbumByName name (Datastore t1)); cbv beta iota in H.
  - pose proof (RegisterAlbum_nil mnemonic name t1) as Hr.
    destruct (RegisterAlbum crypto mnemonic name t1) as [[e t2] l2].
    simpl in *. simplify_eq. by apply Hr.
  - destruct (DB.touchDB Ping db_Create t1) as [[[e|] t2] l2]; cbv beta iota in H;
      [simplify_eq|].
    pose proof (RegisterAlbum_nil mnemonic name t2) as Hr.
    destruct (RegisterAlbum crypto mnemonic name t2) as [[[e|] t3] l3];
      simpl in *; simplify_eq. by apply Hr.
Qed.

(** A join that returns nil has registered the thread: the datastore then
    holds, under the given name, an album whose id is the id derived from
    the phrase. *)
Theorem JoinThread_registers (mnemonic name : string) (t : TextileNode) :
  (DB.JoinThread crypto NBitsForKeypair Ping db_Create mnemonic name t).1.1 = None ->
  exists a b,
    (albumFromMnemonic crypto mnemonic name Demo.node).1.1 = Ok a /\
    trepo.GetAlbumByName name
      (Datastore (DB.JoinThread crypto NBitsForKeypair Ping db_Create mnemonic name t).1.2)
      = Some b /\
    trepo.Id b = trepo.Id a.
Proof.
  destruct (DB.JoinThread crypto NBitsForKeypair Ping db_Create mnemonic name t)
    as [[r t'] l] eqn:E. simpl. intros ->.
  by destruct (JoinThread_nil _ _ _ _ _ E) as [_ H].
Qed.

(** Joining is idempotent while the connection holds.  After a join that
    returned nil, a second join with the same phrase and name returns nil
    and leaves the node as the first left it. *)
Theorem JoinThread_again (mnemonic name : string) (t : TextileNode) :
  (forall ds, Ping ds = None) ->
  (DB.JoinThread crypto NBitsForKeypair Ping db_Create mnemonic name t).1.1 = None ->
  let t1 := (DB.JoinThread crypto NBitsForKeypair Ping db_Create mnemonic name t).1.2 in
  (DB.JoinThread crypto NBitsForKeypair Ping db_Create mnemonic name t1).1.1 = None /\
  (DB.JoinThread crypto NBitsForKeypair Ping db_Create mnemonic name t1).1.2 = t1.
Proof.
  intros Hping.
  destruct (DB.JoinThread crypto NBitsForKeypair Ping db_Create mnemonic name t)
    as [[r t1] l] eqn:E. simpl. intros ->.
  destruct (JoinThread_nil _ _ _ _ _ E) as (Hm & a & b & Ha & Hb & Hi).
  destruct (RegisterAlbum_again mnemonic name t1 a b Ha Hb Hi) as [R1 R2].
  unfold DB.JoinThread, DB.touchDB. unfold bind, gets, logf, ret. simpl.
  rewrite Hping. apply String.eqb_neq in Hm. rewrite Hm, Hb.
  destruct (RegisterAlbum crypto mnemonic name t1) as [[e t2] l2]. simpl in *.
  by subst.
Qed.

End JoinFacts.

Lemma JoinThread_registers_witness :
  exists a b,
    (albumFromMnemonic Demo2.crypto "phrase three" "album3" Demo.node).1.1 = Ok a /\
    trepo.GetAlbumByName "album3"
      (Datastore (DB.JoinThread Demo2.crypto "256" (fun _ => None) (Err "no such file")
                    "phrase three" "album3" Demo.node).1.2) = Some b /\
    trepo.Id b = trepo.Id a.
Proof.
  apply (JoinThread_registers Demo2.crypto "256" (fun _ => None) (Err "no such file")
           "phrase three" "album3" Demo.node).
  reflexivity.
Defined.

Lemma JoinThread_again_witness :
  let t1 := (DB.JoinThread Demo2.crypto "256" (fun _ => None) (Err "no such file")
               "phrase three" "album3" Demo.node).1.2 in
  (DB.JoinThread Demo2.crypto "256" (fun _ => None) (Err "no such file")
     "phrase three" "album3" t1).1.1 = None /\
  (DB.JoinThread Demo2.crypto "256" (fun _ => None) (Err "no such file")
     "phrase three" "album3" t1).1.2 = t1.
Proof.
  apply (JoinThread_again Demo2.crypto "256" (fun _ => None) (Err "no such file")
           "phrase three" "album3" Demo.node).
  - reflexivity.
  - reflexivity.
Defined.

(** ** package wallet *)

Lemma append_nil_l (p : string) : EmptyString +:+ p = p.
Proof. reflexivity. Qed.

Lemma append_cons (c : ascii) (a p : string) : String c a +:+ p = String c (a +:+ p).
Proof. reflexivity. Qed.

Lemma LastIndex_app (a p : string) :
  LastIndex p "/" = None -> LastIndex (a +:+ "/" +:+ p) "/" = Some (String.length a).
Proof.
  intros Hp. induction a as [|c a IH].
  - rewrite append_nil_l, append_cons, append_nil_l. simpl. by rewrite Hp.
  - rewrite append_cons. simpl. by rewrite IH.
Qed.

Lemma substring_prefix (a x : string) :
  String.substring 0 (String.length a) (a +:+ x) = a.
Proof.
  induction a as [|c a IH]; [by destruct x|].
  rewrite append_cons. simpl. by rewrite IH.
Qed.

Lemma substring_all (p : string) : String.substring 0 (String.length p) p = p.
Proof. induction p as [|c p IH]; simpl; [done|]. by rewrite IH. Qed.

Lemma substring_suffix (a p : string) :
  String.substring (String.length a + 1)
    (String.length (a +:+ "/" +:+ p) - (String.length a + 1)) (a +:+ "/" +:+ p) = p.
Proof.
  induction a as [|c a IH].
  - rewrite append_nil_l, append_cons, append_nil_l. simpl.
    rewrite Nat.sub_0_r. apply substring_all.
  - rewrite append_cons. simpl. exact IH.
Qed.

Section WalletFacts.

Variable IDB58Decode : string -> result string.
Variable NewMultiaddr : string -> result string.

(** parsePeerParam cuts the text at its last slash.  For an address part
    and a peer part without a slash, the text made of the two with a slash
    between them gives the multiaddr of the address part, or none when the
    address part is empty, and the peer id of the peer part; an address part
    that does not parse is reported before the peer part is looked at. *)
Theorem parsePeerParam_cuts_at_last_slash (addr pid : string) :
  LastIndex pid "/" = None ->
  wallet.parsePeerParam IDB58Decode NewMultiaddr (addr +:+ "/" +:+ pid) =
    (if String.eqb addr EmptyString then
       match IDB58Decode pid with
       | Err e => Err e
       | Ok p => Ok (None, p)
       end
     else
       match NewMultiaddr addr with
       | Err e => Err e
       | Ok m =>
           match IDB58Decode pid with
           | Err e => Err e
           | Ok p => Ok (Some m, p)
           end
       end).
Proof.
  intros Hp. unfold wallet.parsePeerParam.
  rewrite (LastIndex_app addr pid Hp), substring_prefix, substring_suffix.
  destruct addr as [|c addr]; simpl; [reflexivity|].
  by destruct (NewMultiaddr (String c addr)).
Qed.

End WalletFacts.

Lemma parsePeerParam_cuts_at_last_slash_witness :
  wallet.parsePeerParam (fun s => Ok s) (fun s => Ok s)
    ("/ip4/10.0.0.1/tcp/4001/ipfs" +:+ "/" +:+ "QmPeer") =
  Ok (Some "/ip4/10.0.0.1/tcp/4001/ipfs", "QmPeer").
Proof.
  apply (parsePeerParam_cuts_at_last_slash (fun s => Ok s) (fun s => Ok s)
           "/ip4/10.0.0.1/tcp/4001/ipfs" "QmPeer").
  reflexivity.
Defined.

Section PinDirectory.

Variable Pin : wallet.Node -> error.
Variable item_GetNode : wallet.Link -> result wallet.Node.
Variable Flush : error.

Lemma pin_links_calls (links : list wallet.Link) (exclude : list string) :
  Forall (fun c =>
            match c with
            | wallet.GetNode item => item ∈ links /\ wallet.Name item ∉ exclude
            | wallet.Pinning_Pin n =>
                exists item, item ∈ links /\ (wallet.Name item ∉ exclude) /\
                             item_GetNode item = Ok n
            | wallet.Pinning_Flush => True
            end) (wallet.pin_links item_GetNode Flush links exclude).2.
Proof.
  induction links as [|item links IH]; simpl.
  { by repeat constructor. }
  assert (forall c : wallet.call,
    match c with
    | wallet.GetNode it => it ∈ links /\ wallet.Name it ∉ exclude
    | wallet.Pinning_Pin n =>
        exists it, it ∈ links /\ (wallet.Name it ∉ exclude) /\ item_GetNode it = Ok n
    | wallet.Pinning_Flush => True
    end ->
    match c with
    | wallet.GetNode it => it ∈ item :: links /\ wallet.Name it ∉ exclude
    | wallet.Pinning_Pin n =>
        exists it, it ∈ item :: links /\ (wallet.Name it ∉ exclude) /\
                   item_GetNode it = Ok n
    | wallet.Pinning_Flush => True
    end) as Hweak.
  { intros [n|it|]; [|intros [? ?]; split; [by right|done]|done].
    intros (it & ? & ? & ?). exists it. split_and!; [by right|done|done]. }
  destruct (existsb (String.eqb (wallet.Name item)) exclude) eqn:Ex.
  { eapply Forall_impl; [exact IH|exact Hweak]. }
  assert (wallet.Name item ∉ exclude) as Hnot.
  { intros Hin. apply not_true_iff_false in Ex. apply Ex.
    apply existsb_exists. exists (wallet.Name item). split.
    - by apply list_elem_of_In.
    - apply String.eqb_refl. }
  destruct (item_GetNode item) as [node|e] eqn:Eg; simpl.
  - destruct (wallet.pin_links item_GetNode Flush links exclude) as [err calls].
    simpl in *. constructor; [split; [by left|done]|].
    constructor; [exists item; split_and!; [by left|done|done]|].
    eapply Forall_impl; [exact IH|exact Hweak].
  - constructor; [|constructor]. split; [by left|done].
Qed.

(** pinDirectory leaves the excluded links alone: every node it asks the
    dag service for is behind a link of the directory whose name is not
    excluded, and every node it pins is the directory or a node it got from
    such a link. *)
Theorem pinDirectory_leaves_excluded (dir : wallet.Node) (exclude : list string) :
  Forall (fun c =>
            match c with
            | wallet.GetNode item =>
                item ∈ wallet.Links dir /\ wallet.Name item ∉ exclude
            | wallet.Pinning_Pin n =>
                n = dir \/
                exists item, item ∈ wallet.Links dir /\ (wallet.Name item ∉ exclude) /\
                             item_GetNode item = Ok n
            | wallet.Pinning_Flush => True
            end) (wallet.pinDirectory Pin item_GetNode Flush dir exclude).2.
Proof.
  unfold wallet.pinDirectory. destruct (Pin dir) as [e|]; simpl.
  { constructor; [by left|constructor]. }
  pose proof (pin_links_calls (wallet.Links dir) exclude) as H.
  destruct (wallet.pin_links item_GetNode Flush (wallet.Links dir) exclude)
    as [err calls]. simpl in *.
  constructor; [by left|].
  eapply Forall_impl; [exact H|]. intros [n|it|]; [|done|done].
  intros Hn. by right.
Qed.

Lemma pin_links_failure (links : list wallet.Link) (exclude : list string)
    (item : wallet.Link) (e : string) :
  item ∈ links -> wallet.Name item ∉ exclude -> item_GetNode item = Err e ->
  (wallet.pin_links item_GetNode Flush links exclude).1 <> None /\
  wallet.Pinning_Flush ∉ (wallet.pin_links item_GetNode Flush links exclude).2.
Proof.
  intros Hin Hnot He. induction links as [|it links IH]; [by apply elem_of_nil in Hin|].
  simpl. destruct (existsb (String.eqb (wallet.Name it)) exclude) eqn:Ex.
  - apply elem_of_cons in Hin as [->|Hin]; [|by apply IH].
    exfalso. apply existsb_exists in Ex as (x & Hx & Hxe).
    apply String.eqb_eq in Hxe. subst x. by apply Hnot, list_elem_of_In.
  - destruct (item_GetNode it) as [node|e'] eqn:Eg; simpl.
    + apply elem_of_cons in Hin as [->|Hin]; [congruence|].
      specialize (IH Hin).
      destruct (wallet.pin_links item_GetNode Flush links exclude) as [err calls].
      simpl in *. destruct IH as [IH1 IH2]. split; [done|].
      intros Hf. apply elem_of_cons in Hf as [Hf|Hf]; [discriminate|].
      apply elem_of_cons in Hf as [Hf|Hf]; [discriminate|done].
    + split; [done|]. intros Hf. apply elem_of_cons in Hf as [Hf|Hf]; [discriminate|].
      by apply elem_of_nil in Hf.
Qed.

(** A child that cannot be fetched stops pinDirectory before the Flush:
    when the dag service fails for a link that is not excluded, the call
    returns an error and the pinner is not flushed, whatever was pinned
    before the failing link. *)
Theorem pinDirectory_child_failure (dir : wallet.Node) (exclude : list string)
    (item : wallet.Link) (e : string) :
  item ∈ wallet.Links dir -> wallet.Name item ∉ exclude ->
  item_GetNode item = Err e ->
  (wallet.pinDirectory Pin item_GetNode Flush dir exclude).1 <> None /\
  wallet.Pinning_Flush ∉ (wallet.pinDirectory Pin item_GetNode Flush dir exclude).2.
Proof.
  intros Hin Hnot He. unfold wallet.pinDirectory.
  destruct (Pin dir) as [e'|]; simpl.
  { split; [done|]. intros Hf. apply elem_of_cons in Hf as [Hf|Hf]; [discriminate|].
    by apply elem_of_nil in Hf. }
  destruct (pin_links_failure _ _ _ _ Hin Hnot He) as [H1 H2].
  destruct (wallet.pin_links item_GetNode Flush (wallet.Links dir) exclude)
    as [err calls]. simpl in *. split; [done|].
  intros Hf. apply elem_of_cons in Hf as [Hf|Hf]; [discriminate|done].
Qed.

End PinDirectory.

Lemma pinDirectory_child_failure_witness :
  (wallet.pinDirectory (fun _ => None) Demo2.item_GetNode None Demo2.dir ["photo"]).1
    <> None /\
  wallet.Pinning_Flush ∉
    (wallet.pinDirectory (fun _ => None) Demo2.item_GetNode None Demo2.dir ["photo"]).2.
Proof.
  apply (pinDirectory_child_failure (fun _ => None) Demo2.item_GetNode None Demo2.dir
           ["photo"] {| wallet.Name := "thumb"; wallet.Cid := "QmT" |}
           "merkledag: not found").
  - right. left.
  - apply not_elem_of_cons. split; [discriminate|apply not_elem_of_nil].
  - reflexivity.
Defined.

(** ** Local publish in the earlier revision *)

Section LegacyLocalFacts.

Variable ext : External.
Variable photos_Add :
  PubKey -> bytes -> bytes -> string -> string ->
  result (net.MultipartRequest * photos.Metadata) * list (string * bool).


End LegacyLocalFacts.


(** ** The walks of the small world, once more *)

Lemma handleHash_twice_witness :
  (exists p,
     records_of "Qm2"
       (Datastore (handleHash Demo.ext 3 "Qm2" "thread1" Demo.node).1.2) = [p]) /\
  exists l',
    handleHash Demo.ext 1 "Qm2" "thread1"
      (handleHash Demo.ext 3 "Qm2" "thread1" Demo.node).1.2 =
    (Returns None, (handleHash Demo.ext 3 "Qm2" "thread1" Demo.node).1.2, l').
Proof.
  apply (handleHash_twice Demo.ext 3 0 "Qm2" "thread1" Demo.node
           (handleHash Demo.ext 3 "Qm2" "thread1" Demo.node).1.2
           (handleHash Demo.ext 3 "Qm2" "thread1" Demo.node).2).
  - constructor.
  - discriminate.
  - vm_compute. reflexivity.
Defined.


